(** * The S3 synchronisation engine of [aws_ui.py]

    A shallow embedding of the monitor thread ([s3_monitor_thread]), the
    backup thread ([s3_backup_thread]) and the helpers they call
    ([save_backup_metadata], [load_backup_metadata],
    [validate_file_integrity]), followed by the properties of the engine.

    Conventions of the embedding.
    - [st.session_state], the local file system and the list of I/O
      effects performed so far are threaded explicitly as a [state].
    - What the outside world does (what a listing returns, whether a
      download raises, what [stop_event.is_set()] answers, what the clock
      reads) is an input of the functions: every theorem quantifies over it.
    - A Python exception is the message it carries; a block that can raise
      returns [option exn] next to the new state, [None] for normal
      completion.
    - Paths are POSIX paths; the file system holds regular files only
      (directories exist or fail to be created as the world says). *)

From Stdlib Require Import ZArith Lia Ascii String.
From stdpp Require Import gmap strings list fin_maps.

Local Open Scope string_scope.
Local Open Scope list_scope.
Local Open Scope Z_scope.

(** ** Python values *)

(** A [datetime] object, field by field.  boto3 reports [LastModified] as
    one ([aws.py] calls [strftime] on it), and [datetime.now()] yields one. *)
Record datetime := {
  year : nat; month : nat; day : nat;
  hour : nat; minute : nat; second : nat; microsecond : nat
}.

#[global] Instance datetime_eq_dec : EqDecision datetime.
Proof. solve_decision. Defined.

(** The scalar values that occur as fields of a stored entry: what
    [json.load] can produce ([None], booleans, integers, strings; JSON
    floats are left out of the model) and, in memory only, [datetime]
    objects coming from a listing. *)
Inductive pyval :=
| PNone
| PBool (b : bool)
| PInt (n : Z)
| PStr (s : string)
| PDatetime (d : datetime).

#[global] Instance pyval_eq_dec : EqDecision pyval.
Proof. solve_decision. Defined.

(** Python's [==] on these values: [bool] is a subclass of [int], values of
    unrelated types are unequal. *)
Definition py_eq (a b : pyval) : bool :=
  match a, b with
  | PNone, PNone => true
  | PBool x, PBool y => bool_decide (x = y)
  | PBool x, PInt n => bool_decide (Z.b2z x = n)
  | PInt n, PBool x => bool_decide (n = Z.b2z x)
  | PInt m, PInt n => bool_decide (m = n)
  | PStr s, PStr t => bool_decide (s = t)
  | PDatetime d, PDatetime e => bool_decide (d = e)
  | _, _ => false
  end.

(** Python's [!=]. *)
Definition py_ne (a b : pyval) : bool := negb (py_eq a b).

(** What the metadata mapping holds under a key: a dict of fields
    ([isinstance(stored_info, dict)]) or, in the legacy format, a bare
    value. *)
Inductive stored_info :=
| InfoDict (fields : gmap string pyval)
| InfoBare (v : pyval).

#[global] Instance stored_info_eq_dec : EqDecision stored_info.
Proof. solve_decision. Defined.

(** [stored_info.get(name)]: [None] when the field is absent. *)
Definition dict_get (fields : gmap string pyval) (name : string) : pyval :=
  default PNone (fields !! name).

(** One element of a page's ['Contents']. [Size] and [ETag] are read with
    [obj.get], so they may be absent. *)
Record s3_object := {
  Key : string;
  LastModified : pyval;
  Size : option Z;
  ETag : option string
}.

(** ** String helpers used by the threads *)

Definition quote : ascii := ascii_of_nat 34.
Definition slash : ascii := ascii_of_nat 47.

Fixpoint lstrip_quote (s : string) : string :=
  match s with
  | EmptyString => EmptyString
  | String c s' => if decide (c = quote) then lstrip_quote s' else s
  end.

Fixpoint rstrip_quote (s : string) : string :=
  match s with
  | EmptyString => EmptyString
  | String c s' =>
      match rstrip_quote s' with
      | EmptyString => if decide (c = quote) then EmptyString else String c EmptyString
      | r => String c r
      end
  end.

(** [s.strip] of the double-quote character. *)
Definition strip_quotes (s : string) : string := rstrip_quote (lstrip_quote s).

(** [obj.get('Size', 0)] and [obj.get('ETag', '')] stripped of its quotes. *)
Definition obj_size (o : s3_object) : Z := default 0 (Size o).
Definition obj_etag (o : s3_object) : string :=
  strip_quotes (default EmptyString (ETag o)).

(** [key.startswith(prefix)] *)
Fixpoint startswith (s p : string) : bool :=
  match p, s with
  | EmptyString, _ => true
  | String a p', String b s' => if decide (a = b) then startswith s' p' else false
  | String _ _, EmptyString => false
  end.

(** [s[n:]] *)
Fixpoint drop_chars (n : nat) (s : string) : string :=
  match n, s with
  | O, _ => s
  | S n', String _ s' => drop_chars n' s'
  | S _, EmptyString => EmptyString
  end.

(** [key[len(prefix):] if key.startswith(prefix) else key] *)
Definition rel_path_of (prefix key : string) : string :=
  if startswith key prefix then drop_chars (String.length prefix) key else key.

Fixpoint has_sep (s : string) : bool :=
  match s with
  | EmptyString => false
  | String c s' => if decide (c = slash) then true else has_sep s'
  end.

Fixpoint last_is_sep (s : string) : bool :=
  match s with
  | EmptyString => false
  | String c EmptyString => bool_decide (c = slash)
  | String _ s' => last_is_sep s'
  end.

(** [os.path.join(a, b)] on a POSIX system: an absolute [b] replaces [a];
    otherwise one separator is inserted unless [a] is empty or already
    ends with one. *)
Definition path_join (a b : string) : string :=
  match b with
  | String c _ =>
      if decide (c = slash) then b
      else if last_is_sep a then a +:+ b
      else match a with
           | EmptyString => b
           | _ => a +:+ String slash b
           end
  | EmptyString =>
      if last_is_sep a then a
      else match a with
           | EmptyString => EmptyString
           | _ => a +:+ String slash EmptyString
           end
  end.

(** [os.path.basename(p)]: what follows the last separator. *)
Fixpoint basename (p : string) : string :=
  match p with
  | EmptyString => EmptyString
  | String c s => if has_sep p then basename s else p
  end.

(** ** Change detection *)

(** Lines 136-152 of [s3_monitor_thread]: [Some reason] when
    [file_changed] ends up [True], [None] when it stays [False]. *)
Definition monitor_detect (last : gmap string stored_info)
    (key : string) (last_modified : pyval) (etag : string) : option string :=
  match last !! key with
  | None => Some "new file"
  | Some (InfoDict stored) =>
      if py_ne (dict_get stored "last_modified") last_modified
         || py_ne (dict_get stored "etag") (PStr etag)
      then Some "file modified" else None
  | Some (InfoBare stored) =>
      if py_ne stored last_modified then Some "file modified (legacy check)" else None
  end.

(** Lines 285-302 of [s3_backup_thread]: the pair
    [(needs_backup, backup_reason)]. *)
Definition backup_detect (backup_history : gmap string stored_info)
    (key : string) (last_modified : pyval) (etag : string) : bool * string :=
  match backup_history !! key with
  | None => (true, "new file")
  | Some (InfoDict stored) =>
      if py_eq (dict_get stored "last_modified") last_modified
         && py_eq (dict_get stored "etag") (PStr etag)
      then (false, "new file") else (true, "file modified")
  | Some (InfoBare stored) =>
      if py_eq stored last_modified
      then (false, "new file") else (true, "file modified (legacy)")
  end.

(** The classification rule in the words of the specification. *)
Inductive change := New | Modified | Unchanged.

#[global] Instance change_eq_dec : EqDecision change.
Proof. solve_decision. Defined.

Definition classify (stored_entry : option stored_info)
    (last_modified : pyval) (etag : string) : change :=
  match stored_entry with
  | None => New
  | Some (InfoDict stored) =>
      if bool_decide (py_eq (dict_get stored "last_modified") last_modified = false
                      ∨ py_eq (dict_get stored "etag") (PStr etag) = false)
      then Modified else Unchanged
  | Some (InfoBare stored) =>
      if bool_decide (py_eq stored last_modified = false) then Modified else Unchanged
  end.

(** How each thread's variables read as a classification. *)
Definition change_of_monitor (r : option string) : change :=
  match r with
  | None => Unchanged
  | Some reason => if decide (reason = "new file") then New else Modified
  end.

Definition change_of_backup (r : bool * string) : change :=
  if fst r then (if decide (snd r = "new file") then New else Modified)
  else Unchanged.

(** ** Clock readings and their formats *)

Definition digit (n : nat) : ascii := ascii_of_nat (48 + n mod 10).

(** The last [width] decimal digits of [n], zero-padded: the [%m], [%d],
    [%H], [%M], [%S] ([width] 2), [%Y] ([width] 4) and [%f] ([width] 6)
    fields of a date in range. *)
Fixpoint zero_pad (width n : nat) : string :=
  match width with
  | O => EmptyString
  | S w => zero_pad w (n / 10) +:+ String (digit n) EmptyString
  end.

(** [strftime("%Y%m%d_%H%M%S")] *)
Definition strftime_compact (t : datetime) : string :=
  zero_pad 4 (year t) +:+ zero_pad 2 (month t) +:+ zero_pad 2 (day t) +:+ "_"
  +:+ zero_pad 2 (hour t) +:+ zero_pad 2 (minute t) +:+ zero_pad 2 (second t).

(** [strftime("%Y-%m-%d %H:%M:%S")] *)
Definition strftime_log (t : datetime) : string :=
  zero_pad 4 (year t) +:+ "-" +:+ zero_pad 2 (month t) +:+ "-" +:+ zero_pad 2 (day t)
  +:+ " " +:+ zero_pad 2 (hour t) +:+ ":" +:+ zero_pad 2 (minute t) +:+ ":"
  +:+ zero_pad 2 (second t).

(** [isoformat()] of a naive datetime: the fraction is printed only when
    it is not zero. *)
Definition isoformat (t : datetime) : string :=
  zero_pad 4 (year t) +:+ "-" +:+ zero_pad 2 (month t) +:+ "-" +:+ zero_pad 2 (day t)
  +:+ "T" +:+ zero_pad 2 (hour t) +:+ ":" +:+ zero_pad 2 (minute t) +:+ ":"
  +:+ zero_pad 2 (second t)
  +:+ match microsecond t with
      | O => EmptyString
      | us => "." +:+ zero_pad 6 us
      end.

(** ** Files, log lines, effects and the threaded state *)

Definition exn := string.

(** The document [save_backup_metadata] builds. *)
Record metadata_document := {
  bucket_of : string;
  prefix_of : string;
  last_backup_of : string;
  files_of : gmap string stored_info
}.

(** A local file.  The text of a JSON file is not modelled: a file is
    [FJson doc] exactly when [json.load] reads [doc] from it, and
    [FTruncated] is the unparsable beginning that [json.dump] leaves behind
    when it raises half-way.  [FObject data] holds the bytes of a
    downloaded object. *)
Inductive file :=
| FObject (data : string)
| FJson (doc : metadata_document)
| FTruncated.

(** [os.path.getsize]; the length of JSON text is not modelled, and
    [validate_file_integrity] only ever runs on a path that
    [download_file] has just written. *)
Definition getsize (f : file) : option Z :=
  match f with
  | FObject data => Some (Z.of_nat (String.length data))
  | _ => None
  end.

(** One line each thread can append to its log; the constructor stands for
    the f-string, its arguments for the values spliced in. *)
Inductive message :=
| MonitorStarted (bucket prefix : string) (interval : Z)
| Checked (key : string) (last_modified : pyval) (size : Z)
| Downloaded (key local_path reason : string) (size : Z) (hash : string)
| FailedToDownload (key : string) (e : exn)
| ScanComplete (files_checked files_downloaded : Z)
| MonitorError (consecutive_errors max_errors : Z) (e : exn)
| MonitorIntervalIncreased (interval : Z)
| MonitorStopped
| BackupStartedThread (bucket prefix : string) (interval : Z)
| BackupFolder (local_folder : string)
| LogFile (log_file : string)
| BackupStarted (backup_count : Z)
| StoppedByUser
| VersionedBackup (rel_path backup_filename : string)
| VersionBackupFailed (rel_path : string) (e : exn)
| BackedUp (key local_path reason : string) (size : Z) (hash : string)
| Retry (attempt max_retries : Z) (key : string)
| FailedAfterAttempts (key : string) (max_retries : Z)
| BackupFailed (key : string) (e : exn)
| Skipped (key : string)
| BackupCompleted (backup_count : Z)
| Duration (started finished : datetime)
| FilesBackedUp (n : Z)
| FilesSkipped (n : Z)
| TotalSize (n : Z)
| NextBackupIn (interval : Z)
| BackupError (consecutive_errors max_errors : Z) (e : exn)
| BackupIntervalIncreased (interval : Z)
| BackupStopped
| ErrorSavingMetadata (e : exn)
| ErrorLoadingMetadata (e : exn)
| Stamped (timestamp : string) (m : message).

(** The I/O a thread attempts, in order; a call is recorded whether it
    returns or raises. *)
Inductive effect :=
| Download (bucket key local_path : string)
| Sleep (seconds : Z)
| Rename (src dst : string)
| SaveMetadata (metadata_file : string) (files : gmap string stored_info).

#[global] Instance effect_eq_dec : EqDecision effect.
Proof. solve_decision. Defined.

(** [st.session_state['monitor_stats']] and [['backup_stats']]. *)
Record monitor_counters := {
  files_checked : Z; files_downloaded : Z; errors : Z
}.
Record backup_counters := {
  total_backups : Z; last_backup : option string; files_backed_up : Z
}.

(** Everything a thread reads and writes.  [store] is the key-to-entry
    mapping of the running thread ([st.session_state[last_key]] in the
    monitor, [backup_history] in the backup); [effects] lists the I/O done
    so far, oldest first; [clock] gives the successive readings of
    [datetime.now()] and [tick] counts those already taken. *)
Record state := {
  store : gmap string stored_info;
  backup_metadata : gmap string stored_info;
  fs : gmap string file;
  log : list message;
  main_log : list message;
  monitor_stats : monitor_counters;
  backup_stats : backup_counters;
  effects : list effect;
  clock : nat → datetime;
  tick : nat
}.

Definition set_store (f : gmap string stored_info → gmap string stored_info) (st : state) :=
  {| store := f (store st); backup_metadata := backup_metadata st; fs := fs st;
     log := log st; main_log := main_log st; monitor_stats := monitor_stats st;
     backup_stats := backup_stats st; effects := effects st;
     clock := clock st; tick := tick st |}.

Definition set_backup_metadata (m : gmap string stored_info) (st : state) :=
  {| store := store st; backup_metadata := m; fs := fs st;
     log := log st; main_log := main_log st; monitor_stats := monitor_stats st;
     backup_stats := backup_stats st; effects := effects st;
     clock := clock st; tick := tick st |}.

Definition set_fs (f : gmap string file → gmap string file) (st : state) :=
  {| store := store st; backup_metadata := backup_metadata st; fs := f (fs st);
     log := log st; main_log := main_log st; monitor_stats := monitor_stats st;
     backup_stats := backup_stats st; effects := effects st;
     clock := clock st; tick := tick st |}.

Definition append_log (m : message) (st : state) :=
  {| store := store st; backup_metadata := backup_metadata st; fs := fs st;
     log := log st ++ [m]; main_log := main_log st; monitor_stats := monitor_stats st;
     backup_stats := backup_stats st; effects := effects st;
     clock := clock st; tick := tick st |}.

Definition append_main_log (m : message) (st : state) :=
  {| store := store st; backup_metadata := backup_metadata st; fs := fs st;
     log := log st; main_log := main_log st ++ [m]; monitor_stats := monitor_stats st;
     backup_stats := backup_stats st; effects := effects st;
     clock := clock st; tick := tick st |}.

Definition set_monitor_stats (f : monitor_counters → monitor_counters) (st : state) :=
  {| store := store st; backup_metadata := backup_metadata st; fs := fs st;
     log := log st; main_log := main_log st; monitor_stats := f (monitor_stats st);
     backup_stats := backup_stats st; effects := effects st;
     clock := clock st; tick := tick st |}.

Definition set_backup_stats (f : backup_counters → backup_counters) (st : state) :=
  {| store := store st; backup_metadata := backup_metadata st; fs := fs st;
     log := log st; main_log := main_log st; monitor_stats := monitor_stats st;
     backup_stats := f (backup_stats st); effects := effects st;
     clock := clock st; tick := tick st |}.

Definition perform (e : effect) (st : state) :=
  {| store := store st; backup_metadata := backup_metadata st; fs := fs st;
     log := log st; main_log := main_log st; monitor_stats := monitor_stats st;
     backup_stats := backup_stats st; effects := effects st ++ [e];
     clock := clock st; tick := tick st |}.

(** [datetime.now()]: the next reading of the clock. *)
Definition now (st : state) : datetime * state :=
  (clock st (tick st),
   {| store := store st; backup_metadata := backup_metadata st; fs := fs st;
      log := log st; main_log := main_log st; monitor_stats := monitor_stats st;
      backup_stats := backup_stats st; effects := effects st;
      clock := clock st; tick := S (tick st) |}).

(** [time.sleep(seconds)] *)
Definition sleep (seconds : Z) (st : state) : state := perform (Sleep seconds) st.

(** ** Metadata persistence *)

(** Whether [json.dump] can encode the value: everything but a [datetime]
    object, on which it raises [TypeError]. *)
Definition json_serialisable_val (v : pyval) : bool :=
  match v with
  | PDatetime _ => false
  | _ => true
  end.

Definition json_serialisable_info (i : stored_info) : bool :=
  match i with
  | InfoDict fields => bool_decide (map_Forall (λ _ v, json_serialisable_val v = true) fields)
  | InfoBare v => json_serialisable_val v
  end.

Definition json_serialisable (files : gmap string stored_info) : bool :=
  bool_decide (map_Forall (λ _ i, json_serialisable_info i = true) files).

Definition metadata_file_of (local_folder : string) : string :=
  path_join local_folder ".backup_metadata.json".

(** [save_backup_metadata(bucket, prefix, local_folder)].  [io_error] is
    what [os.makedirs] or [open] raises, if they do; [open(..., 'w')]
    empties the file before [json.dump] writes to it, so a [TypeError]
    inside [json.dump] leaves a truncated text.  Every exception is caught
    and reported on the main log. *)
Definition save_backup_metadata (io_error : option exn)
    (bucket prefix local_folder : string) (st : state) : state :=
  let metadata_file := metadata_file_of local_folder in
  let '(t, st) := now st in
  let metadata := {| bucket_of := bucket; prefix_of := prefix;
                     last_backup_of := isoformat t;
                     files_of := backup_metadata st |} in
  let st := perform (SaveMetadata metadata_file (files_of metadata)) st in
  match io_error with
  | Some e => append_main_log (ErrorSavingMetadata e) st
  | None =>
      if json_serialisable (files_of metadata)
      then set_fs <[metadata_file := FJson metadata]> st
      else append_main_log
             (ErrorSavingMetadata "Object of type datetime is not JSON serializable")
             (set_fs <[metadata_file := FTruncated]> st)
  end.

(** [load_backup_metadata(local_folder)]: the document read, or [None] for
    the empty dict returned when the file is absent or [json.load] raises. *)
Definition load_backup_metadata (local_folder : string) (st : state)
    : option metadata_document * state :=
  match fs st !! metadata_file_of local_folder with
  | None => (None, st)
  | Some (FJson doc) => (Some doc, st)
  | Some _ =>
      (None, append_main_log (ErrorLoadingMetadata "Expecting value") st)
  end.

(** [validate_file_integrity(local_path, expected_size)] *)
Definition validate_file_integrity (files : gmap string file)
    (local_path : string) (expected_size : Z) : bool :=
  match files !! local_path with
  | Some f =>
      match getsize f with
      | Some actual_size => bool_decide (actual_size = expected_size)
      | None => false
      end
  | None => false
  end.

(** ** What the world does during a cycle *)

(** One call of [s3_client.download_file]: it raises (the destination is
    then left as it was), or returns after writing [data] at the
    destination. *)
Inductive download_result :=
| Raises (e : exn)
| Writes (data : string).

(** One pass through the retry loop: the download, and what
    [calculate_file_hash] returns if it is reached ([None] when reading
    the file back fails). *)
Record attempt_world := {
  download : download_result;
  file_hash : option string
}.

(** What happens around one listed object: the answer of
    [stop_event.is_set()] when its turn comes, the exception raised by
    [os.makedirs] for the destination directory, the attempts by index,
    and, for the backup thread, the exceptions raised by [os.makedirs] for
    the archive directory and by [os.rename]. *)
Record object_world := {
  stop_is_set : bool;
  makedirs_error : option exn;
  attempts : nat → attempt_world;
  versions_makedirs_error : option exn;
  rename_error : option exn
}.

(** What the paginator yields next: a page, with or without ['Contents'],
    together with the answer of [stop_event.is_set()] once it is fetched
    (only the backup thread asks), or an exception. *)
Inductive page_event :=
| Page (page_stop_is_set : bool) (contents : option (list (s3_object * object_world)))
| PageError (e : exn).

(** One iteration of a thread's [while] loop: the listing, the exception
    raised by [os.makedirs] or [open] inside [save_backup_metadata], and
    the answers of [stop_event.is_set()] in the backup thread's waiting
    loop, by index. *)
Record cycle_world := {
  listing : list page_event;
  save_error : option exn;
  wait_checks : nat → bool
}.

Definition max_retries : nat := 3.

(** ** The monitor thread *)

(** The local counters [files_checked] and [files_downloaded]. *)
Record scan_counters := { mon_files_checked : Z; mon_files_downloaded : Z }.

(** The entry committed at lines 174-180. *)
Definition monitor_entry (o : s3_object) (hash : option string) (t : datetime)
    : stored_info :=
  InfoDict (<["last_modified" := LastModified o]>
           (<["etag" := PStr (obj_etag o)]>
           (<["size" := PInt (obj_size o)]>
           (<["hash" := from_option PStr PNone hash]>
           (<["downloaded_at" := PStr (isoformat t)]> ∅))))).

(** The body of the inner [try] (lines 166-191); [Some e] when it raises. *)
Definition monitor_try_download (bucket local_path reason : string)
    (o : s3_object) (w : attempt_world) (c : scan_counters) (st : state)
    : scan_counters * state * option exn :=
  let st := perform (Download bucket (Key o) local_path) st in
  match download w with
  | Raises e => (c, st, Some e)
  | Writes data =>
      let st := set_fs <[local_path := FObject data]> st in
      if validate_file_integrity (fs st) local_path (obj_size o) then
        let '(t, st) := now st in
        let st := set_store <[Key o := monitor_entry o (file_hash w) t]> st in
        let c := {| mon_files_checked := mon_files_checked c;
                    mon_files_downloaded := mon_files_downloaded c + 1 |} in
        let st := set_monitor_stats (λ s,
                    {| files_checked := files_checked s;
                       files_downloaded := files_downloaded s + 1;
                       errors := errors s |}) st in
        match file_hash w with
        | Some h =>
            (c, append_log (Downloaded (Key o) local_path reason (obj_size o)
                              (String.substring 0 8 h)) st, None)
        | None => (c, st, Some "'NoneType' object is not subscriptable")
        end
      else (c, st, Some "File integrity check failed")
  end.

(** [for attempt in range(max_retries)] with its [except] clause (lines
    164-196), started at [attempt] with [remaining] iterations to go. *)
Fixpoint monitor_retry (remaining attempt : nat) (bucket local_path reason : string)
    (o : s3_object) (w : nat → attempt_world) (c : scan_counters) (st : state)
    : scan_counters * state * option exn :=
  match remaining with
  | O => (c, st, None)
  | S remaining' =>
      match monitor_try_download bucket local_path reason o (w attempt) c st with
      | (c, st, None) => (c, st, None)
      | (c, st, Some download_error) =>
          if decide (attempt = max_retries - 1)%nat then (c, st, Some download_error)
          else monitor_retry remaining' (S attempt) bucket local_path reason o w c
                 (sleep (2 ^ Z.of_nat attempt) st)
      end
  end.

(** The outer [try] of one object (lines 158-200): directory creation, the
    retry loop, and the handler that logs and counts the failure. *)
Definition monitor_fetch (bucket local_path reason : string)
    (o : s3_object) (w : object_world) (c : scan_counters) (st : state)
    : scan_counters * state :=
  let '(c, st, r) :=
    match makedirs_error w with
    | Some e => (c, st, Some e)
    | None => monitor_retry max_retries 0 bucket local_path reason o (attempts w) c st
    end in
  match r with
  | None => (c, st)
  | Some e =>
      (c, set_monitor_stats (λ s,
            {| files_checked := files_checked s;
               files_downloaded := files_downloaded s;
               errors := errors s + 1 |})
            (append_log (FailedToDownload (Key o) e) st))
  end.

(** One listed object, once the stop check has passed (lines 125-200). *)
Definition monitor_object (bucket prefix local_folder : string) (verbose : bool)
    (o : s3_object) (w : object_world) (c : scan_counters) (st : state)
    : scan_counters * state :=
  let c := {| mon_files_checked := mon_files_checked c + 1;
              mon_files_downloaded := mon_files_downloaded c |} in
  let st := set_monitor_stats (λ s,
              {| files_checked := files_checked s + 1;
                 files_downloaded := files_downloaded s;
                 errors := errors s |}) st in
  let st := if verbose
            then append_log (Checked (Key o) (LastModified o) (obj_size o)) st
            else st in
  match monitor_detect (store st) (Key o) (LastModified o) (obj_etag o) with
  | None => (c, st)
  | Some reason =>
      let local_path := path_join local_folder (rel_path_of prefix (Key o)) in
      monitor_fetch bucket local_path reason o w c st
  end.

(** [for obj in page['Contents']], left by [break] when the stop signal is
    seen. *)
Fixpoint monitor_page (bucket prefix local_folder : string) (verbose : bool)
    (items : list (s3_object * object_world)) (c : scan_counters) (st : state)
    : scan_counters * state :=
  match items with
  | [] => (c, st)
  | (o, w) :: rest =>
      if stop_is_set w then (c, st)
      else
        let '(c, st) := monitor_object bucket prefix local_folder verbose o w c st in
        monitor_page bucket prefix local_folder verbose rest c st
  end.

(** [for page in page_iterator]; [Some e] when the paginator raises. *)
Fixpoint monitor_pages (bucket prefix local_folder : string) (verbose : bool)
    (pages : list page_event) (c : scan_counters) (st : state)
    : scan_counters * state * option exn :=
  match pages with
  | [] => (c, st, None)
  | PageError e :: _ => (c, st, Some e)
  | Page _ contents :: rest =>
      let '(c, st) :=
        match contents with
        | Some items => monitor_page bucket prefix local_folder verbose items c st
        | None => (c, st)
        end in
      monitor_pages bucket prefix local_folder verbose rest c st
  end.

Definition monitor_max_errors : Z := 5.

(** One iteration of [while not stop_event.is_set()] (lines 108-220), from
    the values of [consecutive_errors] and [interval] to their new values.
    Line 203 makes [st.session_state['backup_metadata']] the mapping itself;
    [save_backup_metadata] reads it at once. *)
Definition monitor_cycle (bucket prefix local_folder : string) (verbose : bool)
    (w : cycle_world) (consecutive_errors interval : Z) (st : state)
    : Z * Z * state :=
  let consecutive_errors := 0 in
  let '(c, st, r) :=
    monitor_pages bucket prefix local_folder verbose (listing w)
      {| mon_files_checked := 0; mon_files_downloaded := 0 |} st in
  let '(consecutive_errors, interval, st) :=
    match r with
    | None =>
        let st := set_backup_metadata (store st) st in
        let st := save_backup_metadata (save_error w) bucket prefix local_folder st in
        let st := if verbose && bool_decide (0 < mon_files_checked c)
                  then append_log (ScanComplete (mon_files_checked c)
                                     (mon_files_downloaded c)) st
                  else st in
        (consecutive_errors, interval, st)
    | Some e =>
        let consecutive_errors := consecutive_errors + 1 in
        let st := append_log (MonitorError consecutive_errors monitor_max_errors e) st in
        let st := set_monitor_stats (λ s,
                    {| files_checked := files_checked s;
                       files_downloaded := files_downloaded s;
                       errors := errors s + 1 |}) st in
        if bool_decide (monitor_max_errors ≤ consecutive_errors) then
          let interval := Z.min (interval * 2) 300 in
          (0, interval, append_log (MonitorIntervalIncreased interval) st)
        else (consecutive_errors, interval, st)
    end in
  (consecutive_errors, interval, sleep interval st).

(** The [while] loop over the cycles the world allows: each comes with the
    answer of [stop_event.is_set()] at the loop test. *)
Fixpoint monitor_loop (bucket prefix local_folder : string) (verbose : bool)
    (cycles : list (bool * cycle_world)) (consecutive_errors interval : Z)
    (st : state) : Z * Z * state :=
  match cycles with
  | [] => (consecutive_errors, interval, st)
  | (stop, w) :: rest =>
      if stop then (consecutive_errors, interval, append_log MonitorStopped st)
      else
        let '(consecutive_errors, interval, st) :=
          monitor_cycle bucket prefix local_folder verbose w
            consecutive_errors interval st in
        monitor_loop bucket prefix local_folder verbose rest
          consecutive_errors interval st
  end.

(** [s3_monitor_thread]: the stored document is merged into the mapping
    ([dict.update], the loaded entries win), then the loop runs. *)
Definition s3_monitor_thread (bucket prefix local_folder : string) (interval : Z)
    (verbose : bool) (cycles : list (bool * cycle_world)) (st : state)
    : Z * Z * state :=
  let '(metadata, st) := load_backup_metadata local_folder st in
  let st := match metadata with
            | Some doc => set_store (λ last, files_of doc ∪ last) st
            | None => st
            end in
  let st := append_log (MonitorStarted bucket prefix interval) st in
  monitor_loop bucket prefix local_folder verbose cycles 0 interval st.

(** ** The backup thread *)

(** [write_log(message)]: the line, stamped with the time, goes to the
    in-memory log.  The same line is appended to [backup_log.txt]; that
    file, opened in append mode, is not part of the modelled file system. *)
Definition write_log (m : message) (st : state) : state :=
  let '(t, st) := now st in
  append_log (Stamped (strftime_log t) m) st.

(** The local counters of one backup cycle, and [consecutive_errors]. *)
Record backup_locals := {
  bk_files_backed_up : Z;
  bk_files_skipped : Z;
  bk_total_size : Z;
  bk_consecutive_errors : Z
}.

(** The entry committed at lines 339-346. *)
Definition backup_entry (o : s3_object) (hash : option string) (t : datetime)
    (backup_count : Z) : stored_info :=
  InfoDict (<["last_modified" := LastModified o]>
           (<["etag" := PStr (obj_etag o)]>
           (<["size" := PInt (obj_size o)]>
           (<["hash" := from_option PStr PNone hash]>
           (<["backed_up_at" := PStr (isoformat t)]>
           (<["backup_count" := PInt backup_count]> ∅)))))).

(** The archive name built at lines 310-314. *)
Definition backup_filename_of (rel_path : string) (t : datetime) : string :=
  basename rel_path +:+ "_" +:+ strftime_compact t.

Definition backup_path_of (local_folder rel_path : string) (t : datetime) : string :=
  path_join (path_join local_folder ".versions") (backup_filename_of rel_path t).

(** Lines 308-319: when the destination exists, it is renamed into
    [.versions].  A failing [os.makedirs] is not caught here ([Some e]
    goes to the handler of the cycle); a failing [os.rename] is logged. *)
Definition backup_version (local_folder rel_path local_path : string)
    (w : object_world) (st : state) : state * option exn :=
  match fs st !! local_path with
  | None => (st, None)
  | Some f =>
      match versions_makedirs_error w with
      | Some e => (st, Some e)
      | None =>
          let '(t, st) := now st in
          let backup_filename := backup_filename_of rel_path t in
          let backup_path := backup_path_of local_folder rel_path t in
          let st := perform (Rename local_path backup_path) st in
          match rename_error w with
          | None =>
              let st := set_fs (λ files, <[backup_path := f]> (delete local_path files)) st in
              (write_log (VersionedBackup rel_path backup_filename) st, None)
          | Some e => (write_log (VersionBackupFailed rel_path e) st, None)
          end
      end
  end.

(** The body of the inner [try] (lines 331-356); [Some e] when it raises. *)
Definition backup_try_download (bucket local_path backup_reason : string)
    (backup_count : Z) (o : s3_object) (w : attempt_world)
    (l : backup_locals) (st : state) : backup_locals * state * option exn :=
  let st := perform (Download bucket (Key o) local_path) st in
  match download w with
  | Raises e => (l, st, Some e)
  | Writes data =>
      let st := set_fs <[local_path := FObject data]> st in
      if validate_file_integrity (fs st) local_path (obj_size o) then
        let '(t, st) := now st in
        let st := set_store <[Key o := backup_entry o (file_hash w) t backup_count]> st in
        let l := {| bk_files_backed_up := bk_files_backed_up l + 1;
                    bk_files_skipped := bk_files_skipped l;
                    bk_total_size := bk_total_size l + obj_size o;
                    bk_consecutive_errors := bk_consecutive_errors l |} in
        let st := set_backup_stats (λ s,
                    {| total_backups := total_backups s;
                       last_backup := last_backup s;
                       files_backed_up := files_backed_up s + 1 |}) st in
        match file_hash w with
        | Some h =>
            (l, write_log (BackedUp (Key o) local_path backup_reason (obj_size o)
                             (String.substring 0 8 h)) st, None)
        | None => (l, st, Some "'NoneType' object is not subscriptable")
        end
      else (l, st, Some "File integrity check failed")
  end.

(** [for attempt in range(max_retries)] (lines 329-362).  The boolean is
    [download_success]. *)
Fixpoint backup_retry (remaining attempt : nat) (bucket local_path backup_reason : string)
    (backup_count : Z) (o : s3_object) (w : nat → attempt_world)
    (l : backup_locals) (st : state) : bool * backup_locals * state * option exn :=
  match remaining with
  | O => (false, l, st, None)
  | S remaining' =>
      match backup_try_download bucket local_path backup_reason backup_count o
              (w attempt) l st with
      | (l, st, None) => (true, l, st, None)
      | (l, st, Some download_error) =>
          if decide (attempt = max_retries - 1)%nat
          then (false, l, st, Some download_error)
          else
            let st := sleep (2 ^ Z.of_nat attempt) st in
            let st := write_log (Retry (Z.of_nat attempt + 1) (Z.of_nat max_retries)
                                   (Key o)) st in
            backup_retry remaining' (S attempt) bucket local_path backup_reason
              backup_count o w l st
      end
  end.

(** The [try] of one object (lines 321-369). *)
Definition backup_fetch (bucket local_path backup_reason : string)
    (backup_count : Z) (o : s3_object) (w : object_world)
    (l : backup_locals) (st : state) : backup_locals * state :=
  let '(l, st, r) :=
    match makedirs_error w with
    | Some e => (l, st, Some e)
    | None =>
        match backup_retry max_retries 0 bucket local_path backup_reason
                backup_count o (attempts w) l st with
        | (download_success, l, st, Some e) => (l, st, Some e)
        | (download_success, l, st, None) =>
            if download_success then (l, st, None)
            else (l, write_log (FailedAfterAttempts (Key o) (Z.of_nat max_retries)) st,
                  None)
        end
    end in
  match r with
  | None => (l, st)
  | Some e =>
      ({| bk_files_backed_up := bk_files_backed_up l;
          bk_files_skipped := bk_files_skipped l;
          bk_total_size := bk_total_size l;
          bk_consecutive_errors := bk_consecutive_errors l + 1 |},
       write_log (BackupFailed (Key o) e) st)
  end.

(** One listed object, once the stop check has passed (lines 280-373). *)
Definition backup_object (bucket prefix local_folder : string) (verbose : bool)
    (backup_count : Z) (o : s3_object) (w : object_world)
    (l : backup_locals) (st : state) : backup_locals * state * option exn :=
  let '(needs_backup, backup_reason) :=
    backup_detect (store st) (Key o) (LastModified o) (obj_etag o) in
  if needs_backup then
    let rel_path := rel_path_of prefix (Key o) in
    let local_path := path_join local_folder rel_path in
    match backup_version local_folder rel_path local_path w st with
    | (st, Some e) => (l, st, Some e)
    | (st, None) =>
        let '(l, st) := backup_fetch bucket local_path backup_reason backup_count o w l st in
        (l, st, None)
    end
  else
    let l := {| bk_files_backed_up := bk_files_backed_up l;
                bk_files_skipped := bk_files_skipped l + 1;
                bk_total_size := bk_total_size l;
                bk_consecutive_errors := bk_consecutive_errors l |} in
    (l, if verbose then write_log (Skipped (Key o)) st else st, None).

(** [for obj in page['Contents']] *)
Fixpoint backup_page (bucket prefix local_folder : string) (verbose : bool)
    (backup_count : Z) (items : list (s3_object * object_world))
    (l : backup_locals) (st : state) : backup_locals * state * option exn :=
  match items with
  | [] => (l, st, None)
  | (o, w) :: rest =>
      if stop_is_set w then (l, st, None)
      else
        match backup_object bucket prefix local_folder verbose backup_count o w l st with
        | (l, st, Some e) => (l, st, Some e)
        | (l, st, None) =>
            backup_page bucket prefix local_folder verbose backup_count rest l st
        end
  end.

(** [for page in page_iterator], left by [break] when the stop signal is
    seen after a page is fetched. *)
Fixpoint backup_pages (bucket prefix local_folder : string) (verbose : bool)
    (backup_count : Z) (pages : list page_event)
    (l : backup_locals) (st : state) : backup_locals * state * option exn :=
  match pages with
  | [] => (l, st, None)
  | PageError e :: _ => (l, st, Some e)
  | Page stop contents :: rest =>
      if stop then (l, write_log StoppedByUser st, None)
      else
        match contents with
        | None =>
            backup_pages bucket prefix local_folder verbose backup_count rest l st
        | Some items =>
            match backup_page bucket prefix local_folder verbose backup_count items l st with
            | (l, st, Some e) => (l, st, Some e)
            | (l, st, None) =>
                backup_pages bucket prefix local_folder verbose backup_count rest l st
            end
        end
  end.

(** [for _ in range(n): if stop_event.is_set(): break; time.sleep(1)]
    (lines 403-406), from the check of index [i]. *)
Fixpoint backup_wait (n i : nat) (checks : nat → bool) (st : state) : state :=
  match n with
  | O => st
  | S n' => if checks i then st else backup_wait n' (S i) checks (sleep 1 st)
  end.

Definition backup_max_errors : Z := 3.

(** One iteration of [while not stop_event.is_set()] (lines 256-406), from
    [backup_count], [consecutive_errors] and [interval] to their new
    values. *)
Definition backup_cycle (bucket prefix local_folder : string) (verbose : bool)
    (w : cycle_world) (backup_count consecutive_errors interval : Z) (st : state)
    : Z * Z * Z * state :=
  let '(backup_start_time, st) := now st in
  let backup_count := backup_count + 1 in
  let st := write_log (BackupStarted backup_count) st in
  let consecutive_errors := 0 in
  let '(l, st, r) :=
    backup_pages bucket prefix local_folder verbose backup_count (listing w)
      {| bk_files_backed_up := 0; bk_files_skipped := 0; bk_total_size := 0;
         bk_consecutive_errors := consecutive_errors |} st in
  let consecutive_errors := bk_consecutive_errors l in
  let '(consecutive_errors, interval, st) :=
    match r with
    | None =>
        let '(finished, st) := now st in
        let st := set_backup_stats (λ s,
                    {| total_backups := total_backups s + 1;
                       last_backup := Some (isoformat backup_start_time);
                       files_backed_up := files_backed_up s |}) st in
        let st := set_backup_metadata (store st) st in
        let st := save_backup_metadata (save_error w) bucket prefix local_folder st in
        let st := write_log (BackupCompleted backup_count) st in
        let st := write_log (Duration backup_start_time finished) st in
        let st := write_log (FilesBackedUp (bk_files_backed_up l)) st in
        let st := write_log (FilesSkipped (bk_files_skipped l)) st in
        let st := write_log (TotalSize (bk_total_size l)) st in
        let st := write_log (NextBackupIn interval) st in
        (consecutive_errors, interval, st)
    | Some e =>
        let consecutive_errors := consecutive_errors + 1 in
        let st := write_log (BackupError consecutive_errors backup_max_errors e) st in
        if bool_decide (backup_max_errors ≤ consecutive_errors) then
          let interval := Z.min (interval * 2) 60 in
          (0, interval, write_log (BackupIntervalIncreased interval) st)
        else (consecutive_errors, interval, st)
    end in
  (backup_count, consecutive_errors, interval,
   backup_wait (Z.to_nat (interval * 60)) 0 (wait_checks w) st).

Fixpoint backup_loop (bucket prefix local_folder : string) (verbose : bool)
    (cycles : list (bool * cycle_world)) (backup_count consecutive_errors interval : Z)
    (st : state) : Z * Z * Z * state :=
  match cycles with
  | [] => (backup_count, consecutive_errors, interval, st)
  | (stop, w) :: rest =>
      if stop
      then (backup_count, consecutive_errors, interval, write_log BackupStopped st)
      else
        let '(backup_count, consecutive_errors, interval, st) :=
          backup_cycle bucket prefix local_folder verbose w
            backup_count consecutive_errors interval st in
        backup_loop bucket prefix local_folder verbose rest
          backup_count consecutive_errors interval st
  end.

(** [s3_backup_thread]: [backup_history] starts as the stored mapping, or
    empty. *)
Definition s3_backup_thread (bucket prefix local_folder : string) (interval : Z)
    (verbose : bool) (cycles : list (bool * cycle_world)) (st : state)
    : Z * Z * Z * state :=
  let '(metadata, st) := load_backup_metadata local_folder st in
  let st := set_store (λ _, from_option files_of ∅ metadata) st in
  let st := write_log (BackupStartedThread bucket prefix interval) st in
  let st := write_log (BackupFolder local_folder) st in
  let st := write_log (LogFile (path_join local_folder "backup_log.txt")) st in
  backup_loop bucket prefix local_folder verbose cycles 0 0 interval st.

(** ** Notions the properties are stated with *)

(** How many of the [n] one-second sleeps of the backup thread's waiting
    loop take place when the stop checks answer [checks i], [checks (i+1)],
    ...: those before the first check that sees the signal. *)
Fixpoint seconds_waited (n i : nat) (checks : nat → bool) : nat :=
  match n with
  | O => O
  | S n' => if checks i then O else S (seconds_waited n' (S i) checks)
  end.

(** The same cycle with other answers to the stop checks of the wait. *)
Definition with_wait_checks (checks : nat → bool) (w : cycle_world) : cycle_world :=
  {| listing := listing w; save_error := save_error w; wait_checks := checks |}.

(** An attempt fails the way the retry loop expects: the download raises,
    or the file it wrote has not the reported size. *)
Definition attempt_fails (o : s3_object) (w : attempt_world) : bool :=
  match download w with
  | Raises _ => true
  | Writes data => negb (bool_decide (Z.of_nat (String.length data) = obj_size o))
  end.

(** The exception such an attempt ends with. *)
Definition attempt_error (w : attempt_world) : exn :=
  match download w with
  | Raises e => e
  | Writes _ => "File integrity check failed"
  end.

(** The downloads and sleeps of [k] attempts in a row, the first of them
    being the attempt of index [first]: as the retry loops produce them. *)
Fixpoint attempts_trace (bucket key local_path : string) (first k : nat) : list effect :=
  match k with
  | O => []
  | S k' =>
      Download bucket key local_path ::
      match k' with
      | O => []
      | S _ => Sleep (2 ^ Z.of_nat first)
               :: attempts_trace bucket key local_path (S first) k'
      end
  end.



(** Where both threads put the object of key [key]. *)
Definition local_path_of (local_folder prefix key : string) : string :=
  path_join local_folder (rel_path_of prefix key).

(** Every object the paginator lists, page after page. *)
Fixpoint listed (pages : list page_event) : list (s3_object * object_world) :=
  match pages with
  | [] => []
  | Page _ (Some items) :: rest => items ++ listed rest
  | _ :: rest => listed rest
  end.

(** The first exception the paginator raises, if it raises. *)
Fixpoint page_error (pages : list page_event) : option exn :=
  match pages with
  | [] => None
  | PageError e :: _ => Some e
  | Page _ _ :: rest => page_error rest
  end.


Definition is_download (e : effect) : bool :=
  match e with
  | Download _ _ _ => true
  | _ => false
  end.




(** From [st] to [st'] only effects satisfying [P] were performed. *)
Definition adds_effects (P : effect → bool) (st st' : state) : Prop :=
  ∃ es, effects st' = effects st ++ es ∧ Forall (λ e, P e = true) es.

(** The exception the listing pass of a backup cycle ends with, if any:
    the cycle of [backup_cycle] up to its [except] clause. *)
Definition backup_cycle_raises (bucket prefix local_folder : string) (verbose : bool)
    (w : cycle_world) (backup_count : Z) (st : state) : option exn :=
  (backup_pages bucket prefix local_folder verbose (backup_count + 1) (listing w)
     {| bk_files_backed_up := 0; bk_files_skipped := 0; bk_total_size := 0;
        bk_consecutive_errors := 0 |}
     (write_log (BackupStarted (backup_count + 1)) (now st).2)).2.

(** From [st] to [st'] an entry of the mapping either stays as it is or
    is replaced by an entry that [is_entry] accepts for an object of
    [objects] with that key. *)
Definition updates_only (is_entry : s3_object → stored_info → Prop)
    (objects : list (s3_object * object_world)) (st st' : state) : Prop :=
  ∀ k, store st' !! k = store st !! k
       ∨ ∃ ow info, ow ∈ objects ∧ k = Key ow.1
                    ∧ store st' !! k = Some info ∧ is_entry ow.1 info.

Definition is_monitor_entry (o : s3_object) (info : stored_info) : Prop :=
  ∃ hash t, info = monitor_entry o hash t.

Definition is_backup_entry (backup_count : Z) (o : s3_object) (info : stored_info) : Prop :=
  ∃ hash t, info = backup_entry o hash t backup_count.

(** No stop request is seen during the listing: neither after a page is
    fetched nor when an object's turn comes. *)
Fixpoint no_stop_request (pages : list page_event) : Prop :=
  match pages with
  | [] => True
  | Page stop contents :: rest =>
      stop = false
      ∧ Forall (λ ow, stop_is_set ow.2 = false) (default [] contents)
      ∧ no_stop_request rest
  | PageError _ :: rest => no_stop_request rest
  end.

(** The objects a listing reports, whatever happens around them. *)
Definition listed_objects (pages : list page_event) : list s3_object :=
  (listed pages).*1.

(** The object is classified as unchanged against the mapping of [st]. *)
Definition settled_monitor (st : state) (o : s3_object) : Prop :=
  monitor_detect (store st) (Key o) (LastModified o) (obj_etag o) = None.

Definition settled_backup (st : state) (o : s3_object) : Prop :=
  (backup_detect (store st) (Key o) (LastModified o) (obj_etag o)).1 = false.

(** Between [st] and [st'] nothing was downloaded and the mapping did not
    change. *)
Definition nothing_fetched (st st' : state) : Prop :=
  store st' = store st ∧ adds_effects (λ e, negb (is_download e)) st st'.

(** A pass over objects that are all unchanged does nothing to the
    mapping, the disk or the list of effects. *)
Definition idle (objects : list s3_object) (settled : state → s3_object → Prop)
    (st st' : state) : Prop :=
  (∀ o, o ∈ objects → settled st o) →
  store st' = store st ∧ effects st' = effects st ∧ fs st' = fs st.

(** ** Concrete worlds used by the examples *)

(** A cycle whose first page fetch raises [e]. *)
Definition failing_listing (e : exn) : cycle_world :=
  {| listing := [PageError e]; save_error := None; wait_checks := λ _, false |}.

Definition noon : datetime :=
  {| year := 2024; month := 5; day := 17;
     hour := 12; minute := 0; second := 0; microsecond := 0 |}.

(** A fresh session on an empty disk, the clock stuck at [noon]. *)
Definition fresh_state : state :=
  {| store := ∅; backup_metadata := ∅; fs := ∅; log := []; main_log := [];
     monitor_stats := {| files_checked := 0; files_downloaded := 0; errors := 0 |};
     backup_stats := {| total_backups := 0; last_backup := None; files_backed_up := 0 |};
     effects := []; clock := λ _, noon; tick := 0 |}.

(** An object as a listing reports it: five bytes, a quoted ETag. *)
Definition report_txt : s3_object :=
  {| Key := "docs/report.txt"; LastModified := PDatetime noon;
     Size := Some 5; ETag := Some (String quote ("9b2cf5" +:+ String quote EmptyString)) |}.

(** Around an object whose download works at once. *)
Definition download_succeeds (data hash : string) : object_world :=
  {| stop_is_set := false; makedirs_error := None;
     attempts := λ _, {| download := Writes data; file_hash := Some hash |};
     versions_makedirs_error := None; rename_error := None |}.

(** Around an object every download of which raises [e]. *)
Definition download_fails (e : exn) : object_world :=
  {| stop_is_set := false; makedirs_error := None;
     attempts := λ _, {| download := Raises e; file_hash := None |};
     versions_makedirs_error := None; rename_error := None |}.

(** A cycle over one page, with a disk that accepts the metadata file and
    no stop request during the wait. *)
Definition one_page (items : list (s3_object * object_world)) : cycle_world :=
  {| listing := [Page false (Some items)]; save_error := None;
     wait_checks := λ _, false |}.





(** * Properties *)

(** ** The helpers on concrete values *)

Example obj_etag_strips_quotes : obj_etag report_txt = "9b2cf5".
Proof. reflexivity. Qed.

Example rel_path_inside_prefix : rel_path_of "docs/" "docs/sub/report.txt" = "sub/report.txt".
Proof. reflexivity. Qed.

Example rel_path_outside_prefix : rel_path_of "docs/" "other/report.txt" = "other/report.txt".
Proof. reflexivity. Qed.

Example path_join_inserts_separator :
  path_join "/mirror" "sub/report.txt" = "/mirror/sub/report.txt"
  ∧ path_join "/mirror/" "report.txt" = "/mirror/report.txt"
  ∧ path_join "/mirror" "/etc/report.txt" = "/etc/report.txt".
Proof. by split_and!. Qed.

Example basename_of_nested_path : basename "sub/dir/report.txt" = "report.txt".
Proof. reflexivity. Qed.

Example formats_of_a_clock_reading :
  let t := {| year := 2024; month := 5; day := 7;
              hour := 9; minute := 3; second := 1; microsecond := 250 |} in
  strftime_compact t = "20240507_090301"
  ∧ strftime_log t = "2024-05-07 09:03:01"
  ∧ isoformat t = "2024-05-07T09:03:01.000250"
  ∧ isoformat noon = "2024-05-17T12:00:00".
Proof. by split_and!. Qed.

Example python_equality :
  py_eq (PBool true) (PInt 1) = true
  ∧ py_eq (PStr "2024-05-17T12:00:00") (PDatetime noon) = false
  ∧ py_eq PNone (PStr "9b2cf5") = false.
Proof. by split_and!. Qed.

(** ** Change detection *)

Lemma py_eq_refl v : py_eq v v = true.
Proof. destruct v; simpl; try done; by apply bool_decide_eq_true. Qed.

(** C1. Both threads classify a listed object as the rule says: New when
    the key has no stored entry; for a stored dict, Modified when
    last_modified or etag differs and Unchanged otherwise; for a legacy bare
    value, Modified exactly when it differs from the remote last_modified. *)
Theorem change_detection_follows_rule :
  ∀ (last : gmap string stored_info) (o : s3_object),
    change_of_monitor (monitor_detect last (Key o) (LastModified o) (obj_etag o))
      = classify (last !! Key o) (LastModified o) (obj_etag o)
    ∧ change_of_backup (backup_detect last (Key o) (LastModified o) (obj_etag o))
      = classify (last !! Key o) (LastModified o) (obj_etag o).
Proof.
  intros last o. unfold monitor_detect, backup_detect, classify, py_ne.
  destruct (last !! Key o) as [[stored|stored]|]; simpl.
  - destruct (py_eq (dict_get stored "last_modified") (LastModified o)),
      (py_eq (dict_get stored "etag") (PStr (obj_etag o))); by vm_compute.
  - destruct (py_eq stored (LastModified o)); by vm_compute.
  - done.
Qed.

(** ** Escalation of the interval *)

Lemma monitor_cycle_keeps_interval bucket prefix local_folder verbose w ce interval st :
  ∃ ce' st', monitor_cycle bucket prefix local_folder verbose w ce interval st
             = (ce', interval, st') ∧ 0 ≤ ce' ≤ 1.
Proof.
  unfold monitor_cycle.
  destruct (monitor_pages _ _ _ _ _ _ _) as [[c st1] [e|]].
  - rewrite bool_decide_eq_false_2; [|unfold monitor_max_errors; lia].
    eexists _, _. split; [reflexivity|lia].
  - eexists _, _. split; [reflexivity|lia].
Qed.

Lemma monitor_loop_keeps_interval bucket prefix local_folder verbose cycles :
  ∀ ce interval st, 0 ≤ ce ≤ 1 →
    ∃ ce' st', monitor_loop bucket prefix local_folder verbose cycles ce interval st
               = (ce', interval, st') ∧ 0 ≤ ce' ≤ 1.
Proof.
  induction cycles as [|[stop w] rest IH]; intros ce interval st Hce; simpl.
  - eauto.
  - destruct stop; [eauto|].
    destruct (monitor_cycle_keeps_interval bucket prefix local_folder verbose
                w ce interval st) as (ce1 & st1 & -> & Hce1).
    by apply IH.
Qed.

Lemma backup_cycle_failing_listing bucket prefix local_folder verbose e bc ce interval st :
  ∃ st', backup_cycle bucket prefix local_folder verbose (failing_listing e) bc ce interval st
         = (bc + 1, 1, interval, st').
Proof.
  unfold backup_cycle, failing_listing; simpl. eauto.
Qed.

Lemma backup_loop_failing_listing bucket prefix local_folder verbose e n :
  ∀ bc ce interval st, 0 ≤ ce ≤ 1 →
    ∃ bc' ce' st',
      backup_loop bucket prefix local_folder verbose
        (replicate n (false, failing_listing e)) bc ce interval st
      = (bc', ce', interval, st') ∧ 0 ≤ ce' ≤ 1.
Proof.
  induction n as [|n IH]; intros bc ce interval st Hce; cbn [replicate backup_loop].
  - eauto.
  - destruct (backup_cycle_failing_listing bucket prefix local_folder verbose
                e bc ce interval st) as [st1 ->].
    apply IH. lia.
Qed.

(** C3. What the code does instead of escalating: [consecutive_errors] is
    set to zero at the start of every cycle, so after any number [n] of
    consecutive cycles whose listing raises, in either thread, the counter
    is at most 1 and the interval is the one the thread started with. *)
Theorem listing_failures_never_escalate :
  ∀ (n : nat) (e : exn) (bucket prefix local_folder : string) (verbose : bool)
    (interval : Z) (st : state),
    (∃ ce' st',
       monitor_loop bucket prefix local_folder verbose
         (replicate n (false, failing_listing e)) 0 interval st
       = (ce', interval, st') ∧ ce' < monitor_max_errors)
    ∧ (∃ bc' ce' st',
       backup_loop bucket prefix local_folder verbose
         (replicate n (false, failing_listing e)) 0 0 interval st
       = (bc', ce', interval, st') ∧ ce' < backup_max_errors).
Proof.
  intros n e bucket prefix local_folder verbose interval st. split.
  - destruct (monitor_loop_keeps_interval bucket prefix local_folder verbose
                (replicate n (false, failing_listing e)) 0 interval st)
      as (ce' & st' & Heq & Hce); [lia|].
    exists ce', st'. split; [done|]. unfold monitor_max_errors. lia.
  - destruct (backup_loop_failing_listing bucket prefix local_folder verbose e n
                0 0 interval st) as (bc' & ce' & st' & Heq & Hce); [lia|].
    exists bc', ce', st'. split; [done|]. unfold backup_max_errors. lia.
Qed.

(** Five failing cycles in the monitor, three in the backup: the interval
    stays at its configured value. *)
Example five_monitor_failures_keep_60_seconds :
  (monitor_loop "bucket" "docs/" "/mirror" false
     (replicate 5 (false, failing_listing "EndpointConnectionError")) 0 60 fresh_state).1
  = (1, 60).
Proof. reflexivity. Qed.

Example three_backup_failures_keep_10_minutes :
  (backup_loop "bucket" "docs/" "/backup" false
     (replicate 3 (false, failing_listing "EndpointConnectionError")) 0 0 10 fresh_state).1
  = (3, 1, 10).
Proof. vm_compute. reflexivity. Qed.

(** ** Saving and loading the metadata document *)

Lemma save_then_load_serialisable bucket prefix local_folder st :
  json_serialisable (backup_metadata st) = true →
  ∃ doc st',
    load_backup_metadata local_folder
      (save_backup_metadata None bucket prefix local_folder st) = (Some doc, st')
    ∧ files_of doc = backup_metadata st
    ∧ bucket_of doc = bucket ∧ prefix_of doc = prefix.
Proof.
  intros Hser. unfold save_backup_metadata, load_backup_metadata. simpl.
  rewrite Hser. simpl. rewrite lookup_insert_eq. eauto 10.
Qed.

Lemma monitor_entry_not_serialisable o d hash t :
  LastModified o = PDatetime d →
  json_serialisable_info (monitor_entry o hash t) = false.
Proof.
  intros Hd. unfold monitor_entry; simpl. apply bool_decide_eq_false. intros Hall.
  specialize (Hall "last_modified" (LastModified o)).
  rewrite lookup_insert_eq, Hd in Hall. by specialize (Hall eq_refl).
Qed.

Lemma backup_entry_not_serialisable o d hash t n :
  LastModified o = PDatetime d →
  json_serialisable_info (backup_entry o hash t n) = false.
Proof.
  intros Hd. unfold backup_entry; simpl. apply bool_decide_eq_false. intros Hall.
  specialize (Hall "last_modified" (LastModified o)).
  rewrite lookup_insert_eq, Hd in Hall. by specialize (Hall eq_refl).
Qed.

Lemma json_serialisable_lookup files key info :
  files !! key = Some info → json_serialisable_info info = false →
  json_serialisable files = false.
Proof.
  intros Hk Hinfo. apply bool_decide_eq_false. intros Hall.
  specialize (Hall key info Hk). simpl in Hall. congruence.
Qed.

(** C5. Where the round trip breaks: once the mapping holds an entry the
    monitor or the backup thread committed for an object whose
    [LastModified] is a [datetime], [save_backup_metadata] leaves a
    truncated file behind and [load_backup_metadata] returns the empty
    dict, without the mapping. *)
Theorem save_then_load_loses_committed_entries :
  ∀ (o : s3_object) (d : datetime) (hash : option string) (t : datetime) (n : Z)
    (bucket prefix local_folder : string) (st : state),
    LastModified o = PDatetime d →
    backup_metadata st !! Key o = Some (monitor_entry o hash t)
    ∨ backup_metadata st !! Key o = Some (backup_entry o hash t n) →
    let st' := save_backup_metadata None bucket prefix local_folder st in
    fs st' !! metadata_file_of local_folder = Some FTruncated
    ∧ (load_backup_metadata local_folder st').1 = None.
Proof.
  intros o d hash t n bucket prefix local_folder st Hd Hentry.
  assert (json_serialisable (backup_metadata st) = false) as Hser.
  { destruct Hentry as [Hentry|Hentry];
      eapply json_serialisable_lookup; eauto using monitor_entry_not_serialisable,
        backup_entry_not_serialisable. }
  unfold save_backup_metadata, load_backup_metadata; simpl.
  rewrite Hser; simpl. by rewrite lookup_insert_eq.
Qed.

Lemma save_then_load_loses_committed_entries_witness :
  let st := set_backup_metadata
              {[ Key report_txt := monitor_entry report_txt (Some "5d41402a") noon ]}
              fresh_state in
  let st' := save_backup_metadata None "bucket" "docs/" "/mirror" st in
  fs st' !! metadata_file_of "/mirror" = Some FTruncated
  ∧ (load_backup_metadata "/mirror" st').1 = None.
Proof.
  apply (save_then_load_loses_committed_entries report_txt noon (Some "5d41402a")
           noon 0 "bucket" "docs/" "/mirror").
  - reflexivity.
  - left. reflexivity.
Defined.

(** The same, end to end: one monitor cycle downloads [report_txt] and
    saves; the file it leaves cannot be loaded again. *)
Example monitor_cycle_leaves_unreadable_metadata :
  let st := (monitor_cycle "bucket" "docs/" "/mirror" false
               (one_page [(report_txt, download_succeeds "hello" "5d41402abc4b2a76")])
               0 60 fresh_state).2 in
  fs st !! "/mirror/report.txt" = Some (FObject "hello")
  ∧ fs st !! "/mirror/.backup_metadata.json" = Some FTruncated
  ∧ main_log st
    = [ErrorSavingMetadata "Object of type datetime is not JSON serializable"]
  ∧ (load_backup_metadata "/mirror" st).1 = None.
Proof. vm_compute. done. Qed.

(** So a monitor thread started later on the same folder, with the same
    listing, finds no stored mapping and downloads the object again. *)
Example restarted_monitor_downloads_again :
  let cycle := one_page [(report_txt, download_succeeds "hello" "5d41402abc4b2a76")] in
  let st := (s3_monitor_thread "bucket" "docs/" "/mirror" 60 false [(false, cycle)]
               fresh_state).2 in
  let restarted := set_store (λ _, ∅) st in
  let st' := (s3_monitor_thread "bucket" "docs/" "/mirror" 60 false [(false, cycle)]
                restarted).2 in
  drop (length (effects st)) (effects st')
  = [Download "bucket" "docs/report.txt" "/mirror/report.txt";
     SaveMetadata "/mirror/.backup_metadata.json" (store st'); Sleep 60].
Proof. vm_compute. reflexivity. Qed.

(** ** Waiting between two cycles *)

Lemma backup_wait_effects n : ∀ i checks st,
  effects (backup_wait n i checks st)
  = effects st ++ replicate (seconds_waited n i checks) (Sleep 1).
Proof.
  induction n as [|n IH]; intros i checks st; simpl.
  - by rewrite app_nil_r.
  - destruct (checks i); simpl; [by rewrite app_nil_r|].
    rewrite IH. simpl. by rewrite <- app_assoc.
Qed.

(** The backup thread stops sleeping at the first check that sees the
    signal: if the check of index [j] answers yes, at most [j] seconds are
    slept, whatever the interval. *)
Lemma backup_wait_stops_at_check n : ∀ i j checks,
  checks (i + j)%nat = true → (j < n)%nat →
  (seconds_waited n i checks ≤ j)%nat.
Proof.
  induction n as [|n IH]; intros i j checks Hset Hj; simpl; [lia|].
  destruct (checks i) eqn:Hi; [lia|].
  destruct j as [|j]; [rewrite Nat.add_0_r in Hset; congruence|].
  specialize (IH (S i) j checks). rewrite Nat.add_succ_r in Hset.
  simpl in IH. specialize (IH Hset). lia.
Qed.

(** C8. What the monitor thread does between two cycles: one
    [time.sleep(interval)] of the whole interval, on which the answers of
    the stop signal have no influence; the wait is over only when the
    interval has elapsed. *)
Theorem monitor_sleep_ignores_stop :
  ∀ (bucket prefix local_folder : string) (verbose : bool) (w : cycle_world)
    (checks : nat → bool) (consecutive_errors interval : Z) (st : state),
    monitor_cycle bucket prefix local_folder verbose (with_wait_checks checks w)
      consecutive_errors interval st
    = monitor_cycle bucket prefix local_folder verbose w consecutive_errors interval st
    ∧ ∃ ce' st1,
        monitor_cycle bucket prefix local_folder verbose w consecutive_errors interval st
        = (ce', interval, sleep interval st1).
Proof.
  intros bucket prefix local_folder verbose w checks ce interval st.
  split; [reflexivity|].
  unfold monitor_cycle.
  destruct (monitor_pages _ _ _ _ _ _ _) as [[c st1] [e|]].
  - rewrite bool_decide_eq_false_2; [|unfold monitor_max_errors; lia]. eauto.
  - eauto.
Qed.

(** With the stop signal set from the start, a monitor cycle over an empty
    bucket still ends in a sleep of the full five minutes, while the backup
    thread's wait ends at its first check. *)
Example monitor_sleeps_300_seconds_after_stop :
  effects (monitor_cycle "bucket" "docs/" "/mirror" false
             {| listing := [Page true None]; save_error := None;
                wait_checks := λ _, true |} 0 300 fresh_state).2
  = [SaveMetadata "/mirror/.backup_metadata.json" ∅; Sleep 300].
Proof. vm_compute. reflexivity. Qed.

Example backup_wait_ends_at_first_check :
  effects (backup_wait (Z.to_nat (5 * 60)) 0 (λ _, true) fresh_state) = [].
Proof. reflexivity. Qed.

(** ** The retry loop of the monitor thread *)

Lemma validate_after_write files path data size :
  validate_file_integrity (<[path := FObject data]> files) path size
  = bool_decide (Z.of_nat (String.length data) = size).
Proof. unfold validate_file_integrity. by rewrite lookup_insert_eq. Qed.

Ltac frame := try done; try (intros; rewrite ?lookup_insert_ne by done; done).

Lemma monitor_try_download_spec bucket path reason o w c st :
  ∃ c' st' r,
    monitor_try_download bucket path reason o w c st = (c', st', r)
    ∧ effects st' = effects st ++ [Download bucket (Key o) path]
    ∧ (∀ p, p ≠ path → fs st' !! p = fs st !! p)
    ∧ errors (monitor_stats st') = errors (monitor_stats st)
    ∧ mon_files_checked c' = mon_files_checked c
    ∧ (attempt_fails o w = true →
        r = Some (attempt_error w) ∧ c' = c ∧ store st' = store st
        ∧ log st' = log st ∧ monitor_stats st' = monitor_stats st)
    ∧ (attempt_fails o w = false →
        ∃ t, store st' = <[Key o := monitor_entry o (file_hash w) t]> (store st))
    ∧ (r = None → attempt_fails o w = false).
Proof.
  unfold monitor_try_download, attempt_fails, attempt_error.
  destruct (download w) as [e|data]; simpl.
  - eexists _, _, _. split; [reflexivity|]. simpl. naive_solver.
  - rewrite validate_after_write. case_bool_decide; simpl.
    + destruct (file_hash w) as [h|]; eexists _, _, _; (split; [reflexivity|]); simpl;
        (split_and!; frame; eauto).
    + eexists _, _, _. split; [reflexivity|]. simpl.
      split_and!; frame; eauto.
Qed.



Lemma monitor_retry_spec bucket path reason o w remaining : ∀ attempt c st,
  (attempt + remaining = max_retries)%nat →
  ∃ c' st' r k,
    monitor_retry remaining attempt bucket path reason o w c st = (c', st', r)
    ∧ (k ≤ remaining)%nat ∧ (0 < remaining → 0 < k)%nat
    ∧ effects st' = effects st ++ attempts_trace bucket (Key o) path attempt k
    ∧ (∀ p, p ≠ path → fs st' !! p = fs st !! p)
    ∧ errors (monitor_stats st') = errors (monitor_stats st)
    ∧ mon_files_checked c' = mon_files_checked c
    ∧ (store st' = store st
       ∨ ∃ h t, store st' = <[Key o := monitor_entry o h t]> (store st))
    ∧ ((0 < remaining)%nat → r = None →
       ∃ h t, store st' = <[Key o := monitor_entry o h t]> (store st))
    ∧ ((∀ i, (attempt ≤ i < max_retries)%nat → attempt_fails o (w i) = true) →
       (0 < remaining)%nat →
       k = remaining ∧ r = Some (attempt_error (w (max_retries - 1)%nat)) ∧ c' = c
       ∧ store st' = store st ∧ log st' = log st
       ∧ monitor_stats st' = monitor_stats st).
Proof.
  induction remaining as [|remaining IH]; intros attempt c st Hsum.
  - exists c, st, None, 0%nat. simpl. rewrite app_nil_r.
    split_and!; try done; try lia; eauto.
  - cbn [monitor_retry].
    assert (attempt ≤ attempt < max_retries)%nat as Hin by lia.
    destruct (monitor_try_download_spec bucket path reason o (w attempt) c st)
      as (c1 & st1 & r1 & -> & Heff & Hfs & Herr & Hchk & Hfail & Hok & Hnone).
    destruct r1 as [e|].
    + case_decide as Hlast.
      * exists c1, st1, (Some e), 1%nat.
        assert (remaining = 0)%nat as -> by (unfold max_retries in *; lia).
        split_and!; try done; try lia.
        -- destruct (attempt_fails o (w attempt)) eqn:Hf.
           ++ left. by apply Hfail.
           ++ right. destruct (Hok eq_refl) as [t Ht]. eauto.
        -- intros Hall _. destruct (Hfail (Hall attempt Hin))
             as (He & -> & Hst & Hlog & Hstats).
           rewrite <- Hlast. by split_and!.
      * assert (S attempt + remaining = max_retries)%nat as Hsum' by lia.
        destruct (IH (S attempt) c1 (sleep (2 ^ Z.of_nat attempt) st1) Hsum')
          as (c2 & st2 & r2 & k & -> & Hk & Hk0 & Heff2 & Hfs2 & Herr2 & Hchk2 & Hst2 & Hnone2 & Hall2).
        assert (0 < remaining)%nat as Hrem by (unfold max_retries in *; lia).
        exists c2, st2, r2, (S k). split; [done|].
        simpl in Heff2, Hfs2, Herr2, Hst2, Hnone2, Hall2.
        split_and!; try lia.
        -- rewrite Heff2, Heff. rewrite <- !app_assoc. simpl.
           destruct k; [lia|done].
        -- intros p Hp. rewrite Hfs2 by done. by apply Hfs.
        -- destruct (attempt_fails o (w attempt)) eqn:Hf.
           ++ destruct (Hfail eq_refl) as (_ & _ & Hst & _). rewrite Hst in Hst2. done.
           ++ destruct (Hok eq_refl) as [t Ht]. right.
              destruct Hst2 as [->|(h & t' & ->)]; [eauto|].
              rewrite Ht, insert_insert_eq. eauto.
        -- intros _ ->. destruct (Hnone2 Hrem eq_refl) as (h & t & Hst).
           destruct (attempt_fails o (w attempt)) eqn:Hf.
           ++ destruct (Hfail eq_refl) as (_ & _ & Hst' & _). rewrite Hst' in Hst. eauto.
           ++ destruct (Hok eq_refl) as [t' Ht]. rewrite Hst, Ht, insert_insert_eq. eauto.
        -- intros Hall _.
           destruct (Hfail (Hall attempt Hin))
             as (_ & -> & Hst & Hlog & Hstats).
           destruct (Hall2 ltac:(intros i Hi; apply Hall; lia) Hrem)
             as (-> & -> & -> & Hst' & Hlog' & Hstats').
           split_and!; try done; congruence.
    + exists c1, st1, None, 1%nat. split; [done|].
      split_and!; try done; try lia.
      * destruct (Hok (Hnone eq_refl)) as [t Ht]. eauto.
      * intros _ _. destruct (Hok (Hnone eq_refl)) as [t Ht]. eauto.
      * intros Hall _. rewrite (Hall attempt Hin) in Hnone.
        by specialize (Hnone eq_refl).
Qed.

(** ** One object in the monitor thread *)

Lemma monitor_detect_entry last o h t :
  monitor_detect (<[Key o := monitor_entry o h t]> last)
    (Key o) (LastModified o) (obj_etag o) = None.
Proof.
  unfold monitor_detect, monitor_entry, dict_get, py_ne.
  rewrite lookup_insert_eq. rewrite lookup_insert_eq.
  rewrite lookup_insert_ne by done. rewrite lookup_insert_eq. simpl.
  rewrite py_eq_refl. simpl. by rewrite bool_decide_eq_true_2.
Qed.

Lemma monitor_detect_other last key info o :
  key ≠ Key o →
  monitor_detect (<[key := info]> last) (Key o) (LastModified o) (obj_etag o)
  = monitor_detect last (Key o) (LastModified o) (obj_etag o).
Proof. intros Hne. unfold monitor_detect. by rewrite lookup_insert_ne. Qed.

Lemma monitor_fetch_spec bucket path reason o w c st :
  ∃ c' st' k,
    monitor_fetch bucket path reason o w c st = (c', st')
    ∧ (k ≤ max_retries)%nat
    ∧ effects st' = effects st ++ attempts_trace bucket (Key o) path 0 k
    ∧ (∀ p, p ≠ path → fs st' !! p = fs st !! p)
    ∧ (store st' = store st
       ∨ ∃ h t, store st' = <[Key o := monitor_entry o h t]> (store st))
    ∧ errors (monitor_stats st) ≤ errors (monitor_stats st')
    ∧ mon_files_checked c' = mon_files_checked c
    ∧ (errors (monitor_stats st') = errors (monitor_stats st) →
       ∃ h t, store st' = <[Key o := monitor_entry o h t]> (store st))
    ∧ (makedirs_error w = None →
       (∀ i, (i < max_retries)%nat → attempt_fails o (attempts w i) = true) →
       k = max_retries ∧ c' = c ∧ store st' = store st
       ∧ log st' = log st
                   ++ [FailedToDownload (Key o)
                         (attempt_error (attempts w (max_retries - 1)%nat))]
       ∧ errors (monitor_stats st') = errors (monitor_stats st) + 1).
Proof.
  unfold monitor_fetch. destruct (makedirs_error w) as [e|].
  - exists c, (set_monitor_stats (λ s,
            {| files_checked := files_checked s;
               files_downloaded := files_downloaded s;
               errors := errors s + 1 |})
            (append_log (FailedToDownload (Key o) e) st)), 0%nat.
    simpl. rewrite app_nil_r. split_and!; try done; try lia; eauto.
  - destruct (monitor_retry_spec bucket path reason o (attempts w) max_retries 0 c st eq_refl)
      as (c1 & st1 & r & k & -> & Hk & Hk0 & Heff & Hfs & Herr & Hchk & Hst & Hnone & Hall).
    assert (0 < max_retries)%nat as Hpos by (unfold max_retries; lia).
    destruct r as [e|]; eexists _, _, k; (split; [reflexivity|]); simpl.
    + split_and!; try done; try lia.
      intros _ Hfail. destruct (Hall ltac:(intros i Hi; apply Hfail; lia) Hpos)
        as (-> & [= ->] & -> & -> & -> & Hstats).
      split_and!; try done. lia.
    + split_and!; try done; try lia.
      * intros _. by apply Hnone.
      * intros _ Hfail. destruct (Hall ltac:(intros i Hi; apply Hfail; lia) Hpos)
          as (_ & [=] & _).
Qed.

Lemma monitor_object_spec bucket prefix local_folder verbose o w c st :
  ∃ c' st' k,
    monitor_object bucket prefix local_folder verbose o w c st = (c', st')
    ∧ (k ≤ max_retries)%nat
    ∧ effects st' = effects st
        ++ attempts_trace bucket (Key o) (local_path_of local_folder prefix (Key o)) 0 k
    ∧ (∀ p, p ≠ local_path_of local_folder prefix (Key o) → fs st' !! p = fs st !! p)
    ∧ (store st' = store st
       ∨ ∃ h t, store st' = <[Key o := monitor_entry o h t]> (store st))
    ∧ mon_files_checked c' = mon_files_checked c + 1
    ∧ errors (monitor_stats st) ≤ errors (monitor_stats st')
    ∧ (errors (monitor_stats st') = errors (monitor_stats st) →
       monitor_detect (store st') (Key o) (LastModified o) (obj_etag o) = None)
    ∧ (monitor_detect (store st) (Key o) (LastModified o) (obj_etag o) = None →
       k = 0%nat ∧ store st' = store st ∧ fs st' = fs st
       ∧ mon_files_downloaded c' = mon_files_downloaded c).
Proof.
  unfold monitor_object.
  set (c0 := {| mon_files_checked := mon_files_checked c + 1;
                mon_files_downloaded := mon_files_downloaded c |}).
  set (st0 := if verbose then _ else _).
  assert (store st0 = store st ∧ effects st0 = effects st ∧ fs st0 = fs st
          ∧ errors (monitor_stats st0) = errors (monitor_stats st))
    as (Hs & He & Hf & Herr) by (subst st0; by destruct verbose).
  rewrite Hs.
  destruct (monitor_detect (store st) (Key o) (LastModified o) (obj_etag o))
    as [reason|] eqn:Hdet.
  - destruct (monitor_fetch_spec bucket (local_path_of local_folder prefix (Key o))
                reason o w c0 st0)
      as (c1 & st1 & k & Heq & Hk & Heff & Hfs & Hst & Hle & Hchk & Hsame & _).
    fold (local_path_of local_folder prefix (Key o)). rewrite Heq.
    exists c1, st1, k. split; [done|]. rewrite He in Heff. rewrite Hf in Hfs.
    rewrite Hs in Hst, Hsame. rewrite Herr in Hle, Hsame.
    split_and!; try done.
    + intros Hsame'. destruct (Hsame Hsame') as (h & t & ->).
      apply monitor_detect_entry.
  - exists c0, st0, 0%nat. simpl. rewrite app_nil_r, Hs, He, Hf, Herr.
    split_and!; try done; eauto. lia.
Qed.

(** ** Lifting a property of one object to a whole pass of the monitor *)

Section MonitorPass.
Variables (bucket prefix local_folder : string) (verbose : bool).
Variable R : state → state → Prop.
Variable listing : list (s3_object * object_world).
Hypothesis R_refl : ∀ st, R st st.
Hypothesis R_trans : ∀ st1 st2 st3, R st1 st2 → R st2 st3 → R st1 st3.
Hypothesis R_object : ∀ o w c st,
  (o, w) ∈ listing →
  R st (monitor_object bucket prefix local_folder verbose o w c st).2.

Lemma monitor_page_lift items : ∀ c st,
  items ⊆ listing →
  R st (monitor_page bucket prefix local_folder verbose items c st).2.
Proof.
  induction items as [|[o w] rest IH]; intros c st Hsub; simpl; [done|].
  destruct (stop_is_set w); [done|].
  specialize (R_object o w c st (Hsub _ ltac:(left))).
  destruct (monitor_object _ _ _ _ o w c st) as [c1 st1]. simpl in *.
  eapply R_trans; [done|]. apply IH. set_solver.
Qed.

Lemma monitor_pages_lift pages : ∀ c st,
  listed pages ⊆ listing →
  R st (monitor_pages bucket prefix local_folder verbose pages c st).1.2.
Proof.
  induction pages as [|[stop [items|]|e] rest IH]; intros c st Hsub; simpl in *;
    try done.
  - pose proof (monitor_page_lift items c st ltac:(set_solver)) as Hpage.
    destruct (monitor_page _ _ _ _ items c st) as [c1 st1]. simpl in *.
    eapply R_trans; [done|]. apply IH. set_solver.
  - by apply IH.
Qed.
End MonitorPass.


(** ** The retry loop of the backup thread *)

Lemma backup_try_download_spec bucket path reason bc o w l st :
  ∃ l' st' r,
    backup_try_download bucket path reason bc o w l st = (l', st', r)
    ∧ effects st' = effects st ++ [Download bucket (Key o) path]
    ∧ (∀ p, p ≠ path → fs st' !! p = fs st !! p)
    ∧ bk_consecutive_errors l' = bk_consecutive_errors l
    ∧ bk_files_skipped l' = bk_files_skipped l
    ∧ (attempt_fails o w = true →
        r = Some (attempt_error w) ∧ l' = l ∧ store st' = store st
        ∧ log st' = log st ∧ tick st' = tick st ∧ clock st' = clock st)
    ∧ (attempt_fails o w = false →
        ∃ t, store st' = <[Key o := backup_entry o (file_hash w) t bc]> (store st))
    ∧ (r = None → attempt_fails o w = false).
Proof.
  unfold backup_try_download, attempt_fails, attempt_error.
  destruct (download w) as [e|data]; simpl.
  - eexists _, _, _. split; [reflexivity|]. simpl. naive_solver.
  - rewrite validate_after_write. case_bool_decide; simpl.
    + destruct (file_hash w) as [h|]; eexists _, _, _; (split; [reflexivity|]); simpl;
        (split_and!; frame; eauto).
    + eexists _, _, _. split; [reflexivity|]. simpl.
      split_and!; frame; eauto.
Qed.

Lemma backup_retry_spec bucket path reason bc o w remaining : ∀ attempt l st,
  (attempt + remaining = max_retries)%nat →
  ∃ ok l' st' r k,
    backup_retry remaining attempt bucket path reason bc o w l st = (ok, l', st', r)
    ∧ (k ≤ remaining)%nat ∧ (0 < remaining → 0 < k)%nat
    ∧ effects st' = effects st ++ attempts_trace bucket (Key o) path attempt k
    ∧ (∀ p, p ≠ path → fs st' !! p = fs st !! p)
    ∧ bk_consecutive_errors l' = bk_consecutive_errors l
    ∧ bk_files_skipped l' = bk_files_skipped l
    ∧ (store st' = store st
       ∨ ∃ h t, store st' = <[Key o := backup_entry o h t bc]> (store st))
    ∧ ((0 < remaining)%nat → r = None →
       ok = true ∧ ∃ h t, store st' = <[Key o := backup_entry o h t bc]> (store st))
    ∧ ((∀ i, (attempt ≤ i < max_retries)%nat → attempt_fails o (w i) = true) →
       (0 < remaining)%nat →
       k = remaining ∧ r = Some (attempt_error (w (max_retries - 1)%nat)) ∧ l' = l
       ∧ store st' = store st
       ∧ ∃ stamps, length stamps = (remaining - 1)%nat
           ∧ log st' = log st
               ++ zip_with (λ i s, Stamped s (Retry (Z.of_nat i + 1) (Z.of_nat max_retries) (Key o)))
                    (seq attempt (remaining - 1)) stamps).
Proof.
  induction remaining as [|remaining IH]; intros attempt l st Hsum.
  - exists false, l, st, None, 0%nat. simpl. rewrite app_nil_r.
    split_and!; try done; try lia; eauto.
  - cbn [backup_retry].
    assert (attempt ≤ attempt < max_retries)%nat as Hin by lia.
    destruct (backup_try_download_spec bucket path reason bc o (w attempt) l st)
      as (l1 & st1 & r1 & -> & Heff & Hfs & Herr & Hskip & Hfail & Hok & Hnone).
    destruct r1 as [e|].
    + case_decide as Hlast.
      * exists false, l1, st1, (Some e), 1%nat.
        assert (remaining = 0)%nat as -> by (unfold max_retries in *; lia).
        split_and!; try done; try lia.
        -- destruct (attempt_fails o (w attempt)) eqn:Hf.
           ++ left. by apply Hfail.
           ++ right. destruct (Hok eq_refl) as [t Ht]. eauto.
        -- intros Hall _. destruct (Hfail (Hall attempt Hin))
             as (He & -> & Hst & Hlog & Htick & Hclock).
           rewrite <- Hlast. split_and!; try done.
           exists []. simpl. by rewrite app_nil_r.
      * assert (S attempt + remaining = max_retries)%nat as Hsum' by lia.
        set (st1' := write_log _ _).
        destruct (IH (S attempt) l1 st1' Hsum')
          as (ok2 & l2 & st2 & r2 & k & -> & Hk & Hk0 & Heff2 & Hfs2 & Herr2 & Hskip2
              & Hst2 & Hnone2 & Hall2).
        assert (0 < remaining)%nat as Hrem by (unfold max_retries in *; lia).
        exists ok2, l2, st2, r2, (S k). split; [done|].
        subst st1'. simpl in Heff2, Hfs2, Hst2, Hnone2, Hall2.
        split_and!; try lia.
        -- rewrite Heff2, Heff. rewrite <- !app_assoc. simpl.
           destruct k; [lia|done].
        -- intros p Hp. rewrite Hfs2 by done. by apply Hfs.
        -- destruct (attempt_fails o (w attempt)) eqn:Hf.
           ++ destruct (Hfail eq_refl) as (_ & _ & Hst & _). rewrite Hst in Hst2. done.
           ++ destruct (Hok eq_refl) as [t Ht]. right.
              destruct Hst2 as [->|(h & t' & ->)]; [eauto|].
              rewrite Ht, insert_insert_eq. eauto.
        -- intros _ ->. destruct (Hnone2 Hrem eq_refl) as (-> & h & t & Hst).
           split; [done|].
           destruct (attempt_fails o (w attempt)) eqn:Hf.
           ++ destruct (Hfail eq_refl) as (_ & _ & Hst' & _). rewrite Hst' in Hst. eauto.
           ++ destruct (Hok eq_refl) as [t' Ht]. rewrite Hst, Ht, insert_insert_eq. eauto.
        -- intros Hall _.
           destruct (Hfail (Hall attempt Hin))
             as (_ & -> & Hst & Hlog & Htick & Hclock).
           destruct (Hall2 ltac:(intros i Hi; apply Hall; lia) Hrem)
             as (-> & -> & -> & Hst' & stamps & Hlen & Hlog').
           split_and!; try done; try congruence.
           exists (strftime_log (clock st1 (tick st1)) :: stamps).
           split; [simpl; lia|].
           rewrite Hlog', Hlog. rewrite <- app_assoc.
           replace (S remaining - 1)%nat with (S (remaining - 1)) by lia.
           simpl. done.
    + exists true, l1, st1, None, 1%nat. split; [done|].
      split_and!; try done; try lia.
      * destruct (Hok (Hnone eq_refl)) as [t Ht]. eauto.
      * intros _ _. destruct (Hok (Hnone eq_refl)) as [t Ht]. eauto.
      * intros Hall _. rewrite (Hall attempt Hin) in Hnone.
        by specialize (Hnone eq_refl).
Qed.

(** ** One object in the backup thread *)

Lemma backup_detect_entry history o h t bc :
  (backup_detect (<[Key o := backup_entry o h t bc]> history)
     (Key o) (LastModified o) (obj_etag o)).1 = false.
Proof.
  unfold backup_detect, backup_entry, dict_get.
  rewrite lookup_insert_eq. rewrite lookup_insert_eq.
  rewrite lookup_insert_ne by done. rewrite lookup_insert_eq. simpl.
  rewrite py_eq_refl. simpl. by rewrite bool_decide_eq_true_2.
Qed.

Lemma backup_fetch_spec bucket path reason bc o w l st :
  ∃ l' st' k,
    backup_fetch bucket path reason bc o w l st = (l', st')
    ∧ (k ≤ max_retries)%nat
    ∧ effects st' = effects st ++ attempts_trace bucket (Key o) path 0 k
    ∧ (∀ p, p ≠ path → fs st' !! p = fs st !! p)
    ∧ (store st' = store st
       ∨ ∃ h t, store st' = <[Key o := backup_entry o h t bc]> (store st))
    ∧ bk_consecutive_errors l ≤ bk_consecutive_errors l'
    ∧ bk_files_skipped l' = bk_files_skipped l
    ∧ (bk_consecutive_errors l' = bk_consecutive_errors l →
       ∃ h t, store st' = <[Key o := backup_entry o h t bc]> (store st))
    ∧ (makedirs_error w = None →
       (∀ i, (i < max_retries)%nat → attempt_fails o (attempts w i) = true) →
       k = max_retries ∧ store st' = store st
       ∧ bk_consecutive_errors l' = bk_consecutive_errors l + 1
       ∧ ∃ s1 s2 s3,
           log st' = log st
             ++ [Stamped s1 (Retry 1 (Z.of_nat max_retries) (Key o));
                 Stamped s2 (Retry 2 (Z.of_nat max_retries) (Key o));
                 Stamped s3 (BackupFailed (Key o)
                               (attempt_error (attempts w (max_retries - 1)%nat)))]).
Proof.
  unfold backup_fetch. destruct (makedirs_error w) as [e|].
  - eexists _, _, 0%nat. split; [reflexivity|].
    simpl. rewrite app_nil_r. split_and!; try done; try lia; eauto.
  - destruct (backup_retry_spec bucket path reason bc o (attempts w) max_retries 0 l st eq_refl)
      as (ok & l1 & st1 & r & k & -> & Hk & Hk0 & Heff & Hfs & Herr & Hskip & Hst
          & Hnone & Hall).
    assert (0 < max_retries)%nat as Hpos by (unfold max_retries; lia).
    destruct r as [e|].
    + eexists _, _, k; (split; [reflexivity|]); simpl.
      split_and!; try done; try lia.
      intros _ Hfail. destruct (Hall ltac:(intros i Hi; apply Hfail; lia) Hpos)
        as (-> & [= ->] & -> & -> & stamps & Hlen & Hlog).
      split_and!; try done.
      destruct stamps as [|s1 [|s2 [|]]]; try done.
      eexists s1, s2, _. rewrite Hlog. rewrite <- app_assoc. done.
    + destruct (Hnone Hpos eq_refl) as (-> & h & t & Hins).
      eexists _, _, k; (split; [reflexivity|]); simpl.
      split_and!; try done; try lia; eauto.
      intros _ Hfail. destruct (Hall ltac:(intros i Hi; apply Hfail; lia) Hpos)
        as (_ & [=] & _).
Qed.

Lemma backup_version_spec local_folder rel_path local_path w st :
  ∃ st' r es,
    backup_version local_folder rel_path local_path w st = (st', r)
    ∧ store st' = store st
    ∧ effects st' = effects st ++ es
    ∧ (r = None ∨ r = versions_makedirs_error w)
    ∧ match fs st !! local_path with
      | None => es = [] ∧ fs st' = fs st ∧ r = None
      | Some f =>
          match versions_makedirs_error w with
          | Some e => es = [] ∧ fs st' = fs st ∧ r = Some e
          | None =>
              let backup_path := backup_path_of local_folder rel_path (clock st (tick st)) in
              es = [Rename local_path backup_path] ∧ r = None
              ∧ ∃ stamp,
                  match rename_error w with
                  | None =>
                      fs st' = <[backup_path := f]> (delete local_path (fs st))
                      ∧ log st' = log st
                          ++ [Stamped stamp (VersionedBackup rel_path
                                (backup_filename_of rel_path (clock st (tick st))))]
                  | Some e =>
                      fs st' = fs st
                      ∧ log st' = log st ++ [Stamped stamp (VersionBackupFailed rel_path e)]
                  end
          end
      end.
Proof.
  unfold backup_version.
  destruct (fs st !! local_path) as [f|].
  - destruct (versions_makedirs_error w) as [e|].
    + exists st, (Some e), []. rewrite app_nil_r. by split_and!; eauto.
    + simpl. destruct (rename_error w) as [e|]; eexists _, _, _;
        (split; [reflexivity|]); simpl; split_and!; eauto.
  - exists st, None, []. rewrite app_nil_r. by split_and!; eauto.
Qed.

Lemma backup_object_spec bucket prefix local_folder verbose bc o w l st :
  let local_path := local_path_of local_folder prefix (Key o) in
  let rel_path := rel_path_of prefix (Key o) in
  ∃ l' st' r ves k,
    backup_object bucket prefix local_folder verbose bc o w l st = (l', st', r)
    ∧ (k ≤ max_retries)%nat
    ∧ effects st' = effects st ++ ves ++ attempts_trace bucket (Key o) local_path 0 k
    ∧ (ves = [] ∨ ∃ t, ves = [Rename local_path (backup_path_of local_folder rel_path t)])
    ∧ (∀ p, p ≠ local_path → (∀ t, p ≠ backup_path_of local_folder rel_path t) →
         fs st' !! p = fs st !! p)
    ∧ (store st' = store st
       ∨ ∃ h t, store st' = <[Key o := backup_entry o h t bc]> (store st))
    ∧ bk_consecutive_errors l ≤ bk_consecutive_errors l'
    ∧ (∀ e, r = Some e → versions_makedirs_error w = Some e)
    ∧ (r = None → bk_consecutive_errors l' = bk_consecutive_errors l →
       (backup_detect (store st') (Key o) (LastModified o) (obj_etag o)).1 = false)
    ∧ ((backup_detect (store st) (Key o) (LastModified o) (obj_etag o)).1 = false →
       r = None ∧ effects st' = effects st ∧ store st' = store st ∧ fs st' = fs st
       ∧ bk_consecutive_errors l' = bk_consecutive_errors l).
Proof.
  intros local_path rel_path. subst local_path rel_path.
  unfold backup_object, local_path_of.
  set (rel_path := rel_path_of prefix (Key o)).
  set (local_path := path_join local_folder rel_path).
  destruct (backup_detect (store st) (Key o) (LastModified o) (obj_etag o))
    as [needs_backup backup_reason] eqn:Hdet.
  destruct needs_backup.
  - destruct (backup_version_spec local_folder rel_path local_path w st)
      as (st1 & r1 & ves & -> & Hst1 & Heff1 & Hr1 & Hcases).
    assert ((ves = [] ∨ ∃ t, ves = [Rename local_path (backup_path_of local_folder rel_path t)])
            ∧ (∀ p, p ≠ local_path → (∀ t, p ≠ backup_path_of local_folder rel_path t) →
                 fs st1 !! p = fs st !! p)
            ∧ (∀ e, r1 = Some e → versions_makedirs_error w = Some e))
      as (Hves & Hfs1 & Hr1').
    { destruct (fs st !! local_path) as [f|].
      - destruct (versions_makedirs_error w) as [e|].
        + destruct Hcases as (-> & -> & ->). split_and!; eauto.
        + destruct Hcases as (-> & -> & stamp & Hren). split_and!; eauto.
          intros p Hp Hbp. destruct (rename_error w); destruct Hren as [-> _]; [done|].
          rewrite lookup_insert_ne by (by apply not_eq_sym, Hbp).
          by rewrite lookup_delete_ne.
      - destruct Hcases as (-> & -> & ->). split_and!; eauto. done. }
    destruct r1 as [e|].
    + exists l, st1, (Some e), ves, 0%nat. simpl. rewrite Hst1, app_nil_r.
      split_and!; try done; try lia; eauto.
    + destruct (backup_fetch_spec bucket local_path backup_reason bc o w l st1)
        as (l2 & st2 & k & -> & Hk & Heff2 & Hfs2 & Hst2 & Hle & Hskip & Hsame & _).
      exists l2, st2, None, ves, k. rewrite Hst1 in Hst2, Hsame.
      split_and!; try done.
      * rewrite Heff2, Heff1. by rewrite app_assoc.
      * intros p Hp Hbp. rewrite Hfs2 by done. by apply Hfs1.
      * intros _ Hc. destruct (Hsame Hc) as (h & t & ->). apply backup_detect_entry.
  - eexists _, _, None, [], 0%nat. split; [reflexivity|]. simpl.
    rewrite app_nil_r.
    assert (∀ st0 : state, store (if verbose then write_log (Skipped (Key o)) st0 else st0) = store st0
             ∧ effects (if verbose then write_log (Skipped (Key o)) st0 else st0) = effects st0
             ∧ fs (if verbose then write_log (Skipped (Key o)) st0 else st0) = fs st0)
      as Hv by (intros st0; by destruct verbose).
    destruct (Hv st) as (-> & -> & ->).
    split_and!; try done; try lia; eauto.
    intros _ _. by rewrite Hdet.
Qed.

(** ** Lifting a property of one object to a whole pass of the backup *)

Section BackupPass.
Variables (bucket prefix local_folder : string) (verbose : bool) (backup_count : Z).
Variable R : state → state → Prop.
Variable listing : list (s3_object * object_world).
Hypothesis R_refl : ∀ st, R st st.
Hypothesis R_trans : ∀ st1 st2 st3, R st1 st2 → R st2 st3 → R st1 st3.
Hypothesis R_object : ∀ o w l st,
  (o, w) ∈ listing →
  R st (backup_object bucket prefix local_folder verbose backup_count o w l st).1.2.
Lemma backup_page_lift items : ∀ l st,
  items ⊆ listing →
  R st (backup_page bucket prefix local_folder verbose backup_count items l st).1.2.
Proof.
  induction items as [|[o w] rest IH]; intros l st Hsub; simpl; [done|].
  destruct (stop_is_set w); [done|].
  specialize (R_object o w l st (Hsub _ ltac:(left))).
  destruct (backup_object _ _ _ _ _ o w l st) as [[l1 st1] [e|]]; simpl in *; [done|].
  eapply R_trans; [done|]. apply IH. set_solver.
Qed.

Hypothesis R_log : ∀ m st, R st (write_log m st).

Lemma backup_pages_lift pages : ∀ l st,
  listed pages ⊆ listing →
  R st (backup_pages bucket prefix local_folder verbose backup_count pages l st).1.2.
Proof.
  induction pages as [|[stop [items|]|e] rest IH]; intros l st Hsub; simpl in *;
    try done.
  - destruct stop; [apply R_log|].
    pose proof (backup_page_lift items l st ltac:(set_solver)) as Hpage.
    destruct (backup_page _ _ _ _ _ items l st) as [[l1 st1] [e|]]; simpl in *; [done|].
    eapply R_trans; [done|]. apply IH. set_solver.
  - destruct stop; [apply R_log|]. by apply IH.
Qed.
End BackupPass.

(** ** Commits and retries *)











(** A failing object does not keep the next one from being mirrored. *)
Example second_object_follows_failed_first :
  let notes_txt := {| Key := "docs/notes.txt"; LastModified := PDatetime noon;
                      Size := Some 2; ETag := None |} in
  let st := (monitor_cycle "bucket" "docs/" "/mirror" false
               (one_page [(report_txt, download_fails "ReadTimeoutError");
                          (notes_txt, download_succeeds "ok" "444bcb3a3fcf8389")])
               0 60 fresh_state).2 in
  fs st !! "/mirror/report.txt" = None
  ∧ fs st !! "/mirror/notes.txt" = Some (FObject "ok")
  ∧ errors (monitor_stats st) = 1
  ∧ files_downloaded (monitor_stats st) = 1.
Proof. vm_compute. done. Qed.

(** ** When the metadata is saved *)



Lemma adds_effects_weaken (P Q : effect → bool) st st' :
  (∀ e, P e = true → Q e = true) → adds_effects P st st' → adds_effects Q st st'.
Proof.
  intros HPQ (es & He & HP). exists es. split; [done|].
  eapply Forall_impl; [done|]. done.
Qed.




Lemma save_backup_metadata_fields io bucket prefix local_folder st :
  let st' := save_backup_metadata io bucket prefix local_folder st in
  effects st' = effects st ++ [SaveMetadata (metadata_file_of local_folder) (backup_metadata st)]
  ∧ store st' = store st
  ∧ (∀ p, p ≠ metadata_file_of local_folder → fs st' !! p = fs st !! p).
Proof.
  unfold save_backup_metadata; simpl.
  destruct io as [e|]; [done|].
  destruct (json_serialisable _); simpl; split_and!; frame.
Qed.

Lemma backup_wait_fields n : ∀ i checks st,
  store (backup_wait n i checks st) = store st
  ∧ fs (backup_wait n i checks st) = fs st.
Proof.
  induction n as [|n IH]; intros i checks st; simpl; [done|].
  destruct (checks i); [done|]. by rewrite !(proj1 (IH _ _ _)), !(proj2 (IH _ _ _)).
Qed.



(** A cycle in which the only object fails to download still saves. *)
Example partial_failure_still_saves :
  effects (monitor_cycle "bucket" "docs/" "/mirror" false
             (one_page [(report_txt, download_fails "ReadTimeoutError")])
             0 60 fresh_state).2
  = [Download "bucket" "docs/report.txt" "/mirror/report.txt"; Sleep 1;
     Download "bucket" "docs/report.txt" "/mirror/report.txt"; Sleep 2;
     Download "bucket" "docs/report.txt" "/mirror/report.txt";
     SaveMetadata "/mirror/.backup_metadata.json" ∅; Sleep 60].
Proof. vm_compute. reflexivity. Qed.


(** ** What a cycle leaves in place *)

Lemma updates_only_refl is_entry objects st : updates_only is_entry objects st st.
Proof. intros k. by left. Qed.

Lemma updates_only_trans is_entry objects st1 st2 st3 :
  updates_only is_entry objects st1 st2 → updates_only is_entry objects st2 st3 →
  updates_only is_entry objects st1 st3.
Proof.
  intros H12 H23 k. destruct (H23 k) as [Heq|Hnew]; [|by right].
  rewrite Heq. apply H12.
Qed.


Lemma updates_only_insert (is_entry : s3_object → stored_info → Prop)
    objects o w st st' info :
  (o, w) ∈ objects → is_entry o info →
  store st' = <[Key o := info]> (store st) →
  updates_only is_entry objects st st'.
Proof.
  intros Hin Hentry Hst k. rewrite Hst.
  destruct (decide (k = Key o)) as [->|Hne].
  - right. exists (o, w), info. by rewrite lookup_insert_eq.
  - left. by rewrite lookup_insert_ne.
Qed.

Lemma monitor_object_updates bucket prefix local_folder verbose objects o w c st :
  (o, w) ∈ objects →
  updates_only is_monitor_entry objects st
    (monitor_object bucket prefix local_folder verbose o w c st).2.
Proof.
  intros Hin.
  destruct (monitor_object_spec bucket prefix local_folder verbose o w c st)
    as (c1 & st1 & k & -> & _ & _ & _ & [Hst|(h & t & Hst)] & _); simpl.
  - intros key. left. by rewrite Hst.
  - eapply updates_only_insert; [done| |done]. by exists h, t.
Qed.

Lemma backup_object_updates bucket prefix local_folder verbose bc objects o w l st :
  (o, w) ∈ objects →
  updates_only (is_backup_entry bc) objects st
    (backup_object bucket prefix local_folder verbose bc o w l st).1.2.
Proof.
  intros Hin.
  destruct (backup_object_spec bucket prefix local_folder verbose bc o w l st)
    as (l1 & st1 & r & ves & k & -> & _ & _ & _ & _ & [Hst|(h & t & Hst)] & _); simpl.
  - intros key. left. by rewrite Hst.
  - eapply updates_only_insert; [done| |done]. by exists h, t.
Qed.

#[local] Arguments save_backup_metadata : simpl never.

Lemma monitor_cycle_after_pass bucket prefix local_folder verbose w ce interval st :
  ∃ c st1 r ce' st',
    monitor_pages bucket prefix local_folder verbose (listing w)
      {| mon_files_checked := 0; mon_files_downloaded := 0 |} st = (c, st1, r)
    ∧ monitor_cycle bucket prefix local_folder verbose w ce interval st
      = (ce', interval, st')
    ∧ store st' = store st1
    ∧ (∀ p, p ≠ metadata_file_of local_folder → fs st' !! p = fs st1 !! p)
    ∧ adds_effects (λ e, negb (is_download e)) st1 st'
    ∧ files_downloaded (monitor_stats st') = files_downloaded (monitor_stats st1)
    ∧ (r = None → monitor_stats st' = monitor_stats st1).
Proof.
  unfold monitor_cycle.
  destruct (monitor_pages _ _ _ _ _ _ _) as [[c st1] [e|]].
  - rewrite bool_decide_eq_false_2 by (unfold monitor_max_errors; lia).
    eexists _, _, _, _, _. split; [done|]. split; [done|]. simpl.
    split_and!; try done. eexists. split; [done|]. by repeat constructor.
  - destruct (save_backup_metadata_fields (save_error w) bucket prefix local_folder
                (set_backup_metadata (store st1) st1)) as (Hsave & Hstore & Hfs).
    eexists _, _, _, _, _. split; [done|]. split; [done|].
    assert (∀ (b : bool) m (s : state),
              effects (if b then append_log m s else s) = effects s
              ∧ store (if b then append_log m s else s) = store s
              ∧ fs (if b then append_log m s else s) = fs s
              ∧ monitor_stats (if b then append_log m s else s) = monitor_stats s) as Hlog
      by (by intros []).
    simpl. destruct (Hlog (verbose && bool_decide (0 < mon_files_checked c))
                       (ScanComplete (mon_files_checked c) (mon_files_downloaded c))
                       (save_backup_metadata (save_error w) bucket prefix local_folder
                          (set_backup_metadata (store st1) st1)))
      as (He & -> & -> & ->).
    split_and!; try done.
    + eexists. simpl. split; [by rewrite He, Hsave, <- app_assoc|]. by repeat constructor.
    + unfold save_backup_metadata. cbn. destruct (save_error w); [done|].
      by destruct (json_serialisable _).
    + intros _. unfold save_backup_metadata. cbn. destruct (save_error w); [done|].
      by destruct (json_serialisable _).
Qed.

Lemma replicate_sleep_no_download n :
  Forall (λ e, negb (is_download e) = true) (replicate n (Sleep 1)).
Proof. induction n; simpl; by constructor. Qed.

Lemma backup_wait_stats n : ∀ i checks st,
  backup_stats (backup_wait n i checks st) = backup_stats st.
Proof.
  induction n as [|n IH]; intros i checks st; simpl; [done|].
  destruct (checks i); [done|]. by rewrite IH.
Qed.

Lemma backup_cycle_after_pass bucket prefix local_folder verbose w bc ce interval st :
  let st0 := write_log (BackupStarted (bc + 1)) (now st).2 in
  ∃ l st1 r ce' interval' st',
    backup_pages bucket prefix local_folder verbose (bc + 1) (listing w)
      {| bk_files_backed_up := 0; bk_files_skipped := 0; bk_total_size := 0;
         bk_consecutive_errors := 0 |} st0 = (l, st1, r)
    ∧ backup_cycle bucket prefix local_folder verbose w bc ce interval st
      = (bc + 1, ce', interval', st')
    ∧ store st0 = store st ∧ fs st0 = fs st ∧ effects st0 = effects st
    ∧ backup_stats st0 = backup_stats st
    ∧ store st' = store st1
    ∧ (∀ p, p ≠ metadata_file_of local_folder → fs st' !! p = fs st1 !! p)
    ∧ adds_effects (λ e, negb (is_download e)) st1 st'
    ∧ files_backed_up (backup_stats st') = files_backed_up (backup_stats st1)
    ∧ (r = None → ce' = bk_consecutive_errors l ∧ interval' = interval).
Proof.
  intros st0. unfold backup_cycle. cbn [now fst snd].
  subst st0. cbn [now fst snd].
  set (st0 := write_log (BackupStarted (bc + 1)) _).
  destruct (backup_pages _ _ _ _ _ _ _ st0) as [[l st1] [e|]].
  - case_bool_decide; cbn [fst snd]; eexists _, _, _, _, _, _;
      (split; [reflexivity|]); (split; [reflexivity|]);
      rewrite !(proj1 (backup_wait_fields _ _ _ _)), !(proj2 (backup_wait_fields _ _ _ _)),
        !backup_wait_stats;
      (split_and!; try done);
      (eexists; split; [by rewrite backup_wait_effects|]; apply replicate_sleep_no_download).
  - eexists _, _, _, _, _, _. split; [reflexivity|]. cbn [fst snd].
    split; [reflexivity|].
    rewrite !(proj1 (backup_wait_fields _ _ _ _)), !(proj2 (backup_wait_fields _ _ _ _)),
      !backup_wait_stats.
    simpl.
    match goal with
    | |- context [save_backup_metadata ?io ?b ?p ?f ?s] =>
        destruct (save_backup_metadata_fields io b p f s) as (Hsave & Hstore & Hfs)
    end.
    simpl in Hsave, Hstore, Hfs. split_and!; try done.
    + eexists. split.
      * rewrite backup_wait_effects. simpl. rewrite Hsave.
        by rewrite <- app_assoc.
      * apply Forall_app. split; [by repeat constructor|apply replicate_sleep_no_download].
    + unfold save_backup_metadata. cbn. destruct (save_error w); [done|].
      by destruct (json_serialisable _).
Qed.






(** ** Two cycles in a row *)

Lemma settled_monitor_ext st st' o :
  store st' !! Key o = store st !! Key o → settled_monitor st o → settled_monitor st' o.
Proof. unfold settled_monitor, monitor_detect. by intros ->. Qed.

Lemma settled_backup_ext st st' o :
  store st' !! Key o = store st !! Key o → settled_backup st o → settled_backup st' o.
Proof. unfold settled_backup, backup_detect. by intros ->. Qed.

Lemma idle_refl objects settled st : idle objects settled st st.
Proof. by intros _. Qed.

Lemma idle_trans objects (settled : state → s3_object → Prop) st1 st2 st3 :
  (∀ st st' o, store st' = store st → settled st o → settled st' o) →
  idle objects settled st1 st2 → idle objects settled st2 st3 →
  idle objects settled st1 st3.
Proof.
  intros Hext H12 H23 Hset. destruct (H12 Hset) as (Hs & He & Hf).
  destruct H23 as (Hs' & He' & Hf'); [by eauto|]. split_and!; congruence.
Qed.

Lemma monitor_object_idle bucket prefix local_folder verbose objects o w c st :
  o ∈ objects →
  idle objects settled_monitor st
    (monitor_object bucket prefix local_folder verbose o w c st).2.
Proof.
  intros Hin Hset.
  destruct (monitor_object_spec bucket prefix local_folder verbose o w c st)
    as (c1 & st1 & k & -> & _ & Heff & _ & _ & _ & _ & _ & Hidle).
  destruct (Hidle (Hset o Hin)) as (-> & Hs & Hf & _).
  simpl in *. rewrite app_nil_r in Heff. done.
Qed.

Lemma backup_object_idle bucket prefix local_folder verbose bc objects o w l st :
  o ∈ objects →
  idle objects settled_backup st
    (backup_object bucket prefix local_folder verbose bc o w l st).1.2.
Proof.
  intros Hin Hset.
  destruct (backup_object_spec bucket prefix local_folder verbose bc o w l st)
    as (l1 & st1 & r & ves & k & -> & _ & _ & _ & _ & _ & _ & _ & _ & Hidle).
  destruct (Hidle (Hset o Hin)) as (_ & He & Hs & Hf & _). done.
Qed.

Lemma elem_of_listed_objects o w pages :
  (o, w) ∈ listed pages → o ∈ listed_objects pages.
Proof. intros Hin. unfold listed_objects. apply list_elem_of_fmap. by exists (o, w). Qed.

Lemma monitor_pass_idle bucket prefix local_folder verbose pages c st :
  (∀ o, o ∈ listed_objects pages → settled_monitor st o) →
  let st' := (monitor_pages bucket prefix local_folder verbose pages c st).1.2 in
  store st' = store st ∧ effects st' = effects st ∧ fs st' = fs st.
Proof.
  intros Hset.
  apply (monitor_pages_lift bucket prefix local_folder verbose
           (idle (listed_objects pages) settled_monitor) (listed pages)); try done.
  - intros st1 st2 st3. apply idle_trans.
    intros s s' o Hs. apply settled_monitor_ext. by rewrite Hs.
  - intros o w c' st' Hin. apply monitor_object_idle.
    by eapply elem_of_listed_objects.
Qed.

Lemma backup_pass_idle bucket prefix local_folder verbose bc pages l st :
  (∀ o, o ∈ listed_objects pages → settled_backup st o) →
  let st' := (backup_pages bucket prefix local_folder verbose bc pages l st).1.2 in
  store st' = store st ∧ effects st' = effects st ∧ fs st' = fs st.
Proof.
  intros Hset.
  apply (backup_pages_lift bucket prefix local_folder verbose bc
           (idle (listed_objects pages) settled_backup) (listed pages)); try done.
  - intros st1 st2 st3. apply idle_trans.
    intros s s' o Hs. apply settled_backup_ext. by rewrite Hs.
  - intros o w c' st' Hin. apply backup_object_idle.
    by eapply elem_of_listed_objects.
Qed.

Lemma monitor_page_app bucket prefix local_folder verbose a b : ∀ c st,
  Forall (λ ow, stop_is_set ow.2 = false) a →
  monitor_page bucket prefix local_folder verbose (a ++ b) c st
  = monitor_page bucket prefix local_folder verbose b
      (monitor_page bucket prefix local_folder verbose a c st).1
      (monitor_page bucket prefix local_folder verbose a c st).2.
Proof.
  induction a as [|[o w] a IH]; intros c st Hstop; simpl; [done|].
  inversion Hstop as [|? ? Hw Ha]; subst. simpl in Hw. rewrite Hw.
  destruct (monitor_object _ _ _ _ o w c st) as [c1 st1]. by apply IH.
Qed.

Lemma monitor_pages_flat bucket prefix local_folder verbose pages : ∀ c st,
  no_stop_request pages → page_error pages = None →
  monitor_pages bucket prefix local_folder verbose pages c st
  = (monitor_page bucket prefix local_folder verbose (listed pages) c st, None).
Proof.
  induction pages as [|[stop [items|]|e] rest IH]; intros c st Hstop Herr;
    simpl in *; try done.
  - destruct Hstop as (_ & Hitems & Hrest).
    rewrite monitor_page_app by done.
    destruct (monitor_page _ _ _ _ items c st) as [c1 st1]. simpl. by apply IH.
  - destruct Hstop as (_ & _ & Hrest). by apply IH.
Qed.

Lemma backup_page_app bucket prefix local_folder verbose bc a b : ∀ l st,
  Forall (λ ow, stop_is_set ow.2 = false) a →
  backup_page bucket prefix local_folder verbose bc (a ++ b) l st
  = match backup_page bucket prefix local_folder verbose bc a l st with
    | (l1, st1, Some e) => (l1, st1, Some e)
    | (l1, st1, None) => backup_page bucket prefix local_folder verbose bc b l1 st1
    end.
Proof.
  induction a as [|[o w] a IH]; intros l st Hstop; simpl; [done|].
  inversion Hstop as [|? ? Hw Ha]; subst. simpl in Hw. rewrite Hw.
  destruct (backup_object _ _ _ _ _ o w l st) as [[l1 st1] [e|]]; [done|]. by apply IH.
Qed.

Lemma backup_pages_flat bucket prefix local_folder verbose bc pages : ∀ l st,
  no_stop_request pages → page_error pages = None →
  backup_pages bucket prefix local_folder verbose bc pages l st
  = backup_page bucket prefix local_folder verbose bc (listed pages) l st.
Proof.
  induction pages as [|[stop [items|]|e] rest IH]; intros l st Hstop Herr;
    simpl in *; try done.
  - destruct Hstop as (-> & Hitems & Hrest).
    rewrite backup_page_app by done.
    destruct (backup_page _ _ _ _ _ items l st) as [[l1 st1] [e|]]; [done|]. by apply IH.
  - destruct Hstop as (-> & _ & Hrest). by apply IH.
Qed.

Lemma monitor_page_errors_mono bucket prefix local_folder verbose items c st :
  errors (monitor_stats st)
  ≤ errors (monitor_stats (monitor_page bucket prefix local_folder verbose items c st).2).
Proof.
  apply (monitor_page_lift bucket prefix local_folder verbose
           (λ st st', errors (monitor_stats st) ≤ errors (monitor_stats st')) items);
    try done.
  - intros st1 st2 st3. lia.
  - intros o w c' st' _.
    destruct (monitor_object_spec bucket prefix local_folder verbose o w c' st')
      as (c1 & st1 & k & -> & _ & _ & _ & _ & _ & Hle & _). done.
Qed.

Lemma monitor_page_settles bucket prefix local_folder verbose items : ∀ c st,
  NoDup ((λ ow, Key ow.1) <$> items) →
  Forall (λ ow, stop_is_set ow.2 = false) items →
  let st' := (monitor_page bucket prefix local_folder verbose items c st).2 in
  errors (monitor_stats st') = errors (monitor_stats st) →
  ∀ ow, ow ∈ items → settled_monitor st' ow.1.
Proof.
  induction items as [|[o w] rest IH]; intros c st Hdup Hstop st' Herr ow Hin;
    [by apply elem_of_nil in Hin|].
  subst st'. simpl in Herr |- *.
  inversion Hstop as [|? ? Hw Hrest]; subst. simpl in Hw. rewrite Hw in Herr |- *.
  apply NoDup_cons in Hdup as [Hfresh Hdup]. simpl in Hfresh.
  destruct (monitor_object_spec bucket prefix local_folder verbose o w c st)
    as (c1 & st1 & k & Heq & _ & _ & _ & _ & _ & Hle & Hset & _).
  rewrite Heq in Herr |- *.
  pose proof (monitor_page_errors_mono bucket prefix local_folder verbose rest c1 st1)
    as Hmono.
  apply elem_of_cons in Hin as [->|Hin].
  - simpl. eapply settled_monitor_ext; [|apply Hset; lia].
    pose proof (monitor_page_lift bucket prefix local_folder verbose
                  (updates_only is_monitor_entry rest) rest
                  (updates_only_refl _ _) (updates_only_trans _ _)
                  (λ o w c st Hin, monitor_object_updates _ _ _ _ _ o w c st Hin)
                  rest c1 st1 ltac:(done)) as Hup.
    destruct (Hup (Key o)) as [?|(ow & info & Hin & Hk & _)]; [done|].
    exfalso. apply Hfresh. apply list_elem_of_fmap. by exists ow.
  - apply IH; try done. lia.
Qed.

Lemma backup_page_errors_mono bucket prefix local_folder verbose bc items : ∀ l st,
  bk_consecutive_errors l
  ≤ bk_consecutive_errors
      (backup_page bucket prefix local_folder verbose bc items l st).1.1.
Proof.
  induction items as [|[o w] rest IH]; intros l st; simpl; [done|].
  destruct (stop_is_set w); [done|].
  destruct (backup_object_spec bucket prefix local_folder verbose bc o w l st)
    as (l1 & st1 & r & ves & k & -> & _ & _ & _ & _ & _ & Hle & _).
  destruct r as [e|]; simpl; [done|].
  specialize (IH l1 st1). lia.
Qed.

Lemma backup_page_settles bucket prefix local_folder verbose bc items : ∀ l st,
  NoDup ((λ ow, Key ow.1) <$> items) →
  Forall (λ ow, stop_is_set ow.2 = false) items →
  let res := backup_page bucket prefix local_folder verbose bc items l st in
  res.2 = None →
  bk_consecutive_errors res.1.1 = bk_consecutive_errors l →
  ∀ ow, ow ∈ items → settled_backup res.1.2 ow.1.
Proof.
  induction items as [|[o w] rest IH]; intros l st Hdup Hstop res Hnone Herr ow Hin;
    [by apply elem_of_nil in Hin|].
  subst res. simpl in Hnone, Herr |- *.
  inversion Hstop as [|? ? Hw Hrest]; subst. simpl in Hw. rewrite Hw in Hnone, Herr |- *.
  apply NoDup_cons in Hdup as [Hfresh Hdup]. simpl in Hfresh.
  destruct (backup_object_spec bucket prefix local_folder verbose bc o w l st)
    as (l1 & st1 & r & ves & k & Heq & _ & _ & _ & _ & _ & Hle & _ & Hset & _).
  rewrite Heq in Hnone, Herr |- *.
  destruct r as [e|]; [done|].
  pose proof (backup_page_errors_mono bucket prefix local_folder verbose bc rest l1 st1)
    as Hmono.
  apply elem_of_cons in Hin as [->|Hin].
  - simpl. eapply settled_backup_ext; [|apply Hset; [done|lia]].
    pose proof (backup_page_lift bucket prefix local_folder verbose bc
                  (updates_only (is_backup_entry bc) rest) rest
                  (updates_only_refl _ _) (updates_only_trans _ _)
                  (λ o w l st Hin, backup_object_updates _ _ _ _ _ _ o w l st Hin)
                  rest l1 st1 ltac:(done)) as Hup.
    destruct (Hup (Key o)) as [?|(ow & info & Hin & Hk & _)]; [done|].
    exfalso. apply Hfresh. apply list_elem_of_fmap. by exists ow.
  - apply IH; try done. lia.
Qed.

Lemma listed_keys pages :
  (λ ow : s3_object * object_world, Key ow.1) <$> listed pages
  = Key <$> listed_objects pages.
Proof. unfold listed_objects. by rewrite <- list_fmap_compose. Qed.

Lemma elem_of_listed_objects_inv o pages :
  o ∈ listed_objects pages → ∃ w, (o, w) ∈ listed pages.
Proof.
  unfold listed_objects. intros Hin. apply list_elem_of_fmap in Hin as ([o' w] & -> & Hin).
  by exists w.
Qed.

Lemma no_stop_request_listed pages :
  no_stop_request pages → Forall (λ ow, stop_is_set ow.2 = false) (listed pages).
Proof.
  induction pages as [|[stop [items|]|e] rest IH]; simpl; [done| | |done].
  - intros (_ & Hitems & Hrest). apply Forall_app. split; [done|by apply IH].
  - intros (_ & _ & Hrest). by apply IH.
Qed.

(** C9. Two consecutive cycles over the same listing: when the first one
    went through without a listing error, a stop request or a failed
    object, and the listing names each key once, the second one downloads
    nothing and leaves the mapping as it was, in either thread. *)
Theorem second_cycle_after_clean_first_fetches_nothing :
  ∀ (bucket prefix local_folder : string) (verbose : bool) (w1 w2 : cycle_world)
    (backup_count consecutive_errors interval : Z) (st : state),
    page_error (listing w1) = None →
    no_stop_request (listing w1) →
    NoDup (Key <$> listed_objects (listing w1)) →
    listed_objects (listing w2) ⊆ listed_objects (listing w1) →
    let m1 := monitor_cycle bucket prefix local_folder verbose w1
                consecutive_errors interval st in
    let m2 := monitor_cycle bucket prefix local_folder verbose w2 m1.1.1 m1.1.2 m1.2 in
    let b1 := backup_cycle bucket prefix local_folder verbose w1
                backup_count consecutive_errors interval st in
    let b2 := backup_cycle bucket prefix local_folder verbose w2
                b1.1.1.1 b1.1.1.2 b1.1.2 b1.2 in
    (errors (monitor_stats m1.2) = errors (monitor_stats st) → nothing_fetched m1.2 m2.2)
    ∧ (backup_cycle_raises bucket prefix local_folder verbose w1 backup_count st = None →
       b1.1.1.2 = 0 → nothing_fetched b1.2 b2.2).
Proof.
  intros bucket prefix local_folder verbose w1 w2 bc ce interval st
    Hpages Hstop Hdup Hsame m1 m2 b1 b2.
  rewrite <- listed_keys in Hdup.
  split.
  - intros Herr. subst m2 m1.
    destruct (monitor_cycle_after_pass bucket prefix local_folder verbose w1 ce interval st)
      as (c & st1 & r & ce1 & mst1 & Hpass & Hm1 & Hstore & _ & _ & _ & Hstats).
    rewrite Hm1 in *. cbn [fst snd] in *.
    rewrite monitor_pages_flat in Hpass by done. injection Hpass as Hpage <-.
    rewrite Hstats in Herr by done.
    assert (∀ o, o ∈ listed_objects (listing w2) → settled_monitor mst1 o) as Hsettled.
    { intros o Hin. apply Hsame, elem_of_listed_objects_inv in Hin as [w Hin].
      apply settled_monitor_ext with st1; [by rewrite Hstore|].
      pose proof (monitor_page_settles bucket prefix local_folder verbose
                    (listed (listing w1))
                    {| mon_files_checked := 0; mon_files_downloaded := 0 |} st
                    Hdup) as Hset.
      rewrite Hpage in Hset. cbn [fst snd] in Hset.
      apply (Hset (no_stop_request_listed _ Hstop) Herr (o, w) Hin). }
    destruct (monitor_cycle_after_pass bucket prefix local_folder verbose w2
                ce1 interval mst1)
      as (c2 & st2 & r2 & ce2 & mst2 & Hpass2 & -> & Hstore2 & _ & Heff2 & _).
    pose proof (monitor_pass_idle bucket prefix local_folder verbose (listing w2)
                  {| mon_files_checked := 0; mon_files_downloaded := 0 |} mst1 Hsettled)
      as Hidle.
    rewrite Hpass2 in Hidle. cbn [fst snd] in Hidle. destruct Hidle as (Hs & He & _).
    cbn [snd]. split; [congruence|].
    destruct Heff2 as (es & Hes & Hnd). exists es. by rewrite <- He.
  - intros Hraises Hce. subst b2 b1.
    destruct (backup_cycle_after_pass bucket prefix local_folder verbose w1 bc ce interval st)
      as (l & st1 & r & ce1 & i1 & bst1 & Hpass & Hb1 & Hs0 & _ & _ & _ & Hstore & _ & _
          & _ & Hres).
    rewrite Hb1 in *. cbn [fst snd] in *.
    unfold backup_cycle_raises in Hraises. rewrite Hpass in Hraises.
    cbn [snd] in Hraises. subst r. destruct (Hres eq_refl) as [-> ->].
    rewrite backup_pages_flat in Hpass by done.
    assert (∀ o, o ∈ listed_objects (listing w2) → settled_backup bst1 o) as Hsettled.
    { intros o Hin. apply Hsame, elem_of_listed_objects_inv in Hin as [w Hin].
      apply settled_backup_ext with st1; [by rewrite Hstore|].
      pose proof (backup_page_settles bucket prefix local_folder verbose (bc + 1)
                    (listed (listing w1))
                    {| bk_files_backed_up := 0; bk_files_skipped := 0; bk_total_size := 0;
                       bk_consecutive_errors := 0 |}
                    (write_log (BackupStarted (bc + 1)) (now st).2)
                    Hdup (no_stop_request_listed _ Hstop)) as Hset.
      rewrite Hpass in Hset. cbn [fst snd] in Hset.
      apply (Hset eq_refl Hce (o, w) Hin). }
    destruct (backup_cycle_after_pass bucket prefix local_folder verbose w2
                (bc + 1) (bk_consecutive_errors l) interval bst1)
      as (l2 & st2 & r2 & ce2 & i2 & bst2 & Hpass2 & -> & Hs0' & _ & He0' & _ & Hstore2
          & _ & Heff2 & _).
    pose proof (backup_pass_idle bucket prefix local_folder verbose (bc + 1 + 1)
                  (listing w2)
                  {| bk_files_backed_up := 0; bk_files_skipped := 0; bk_total_size := 0;
                     bk_consecutive_errors := 0 |}
                  (write_log (BackupStarted (bc + 1 + 1)) (now bst1).2)) as Hidle.
    rewrite Hpass2 in Hidle. cbn [fst snd] in Hidle.
    destruct Hidle as (Hs & He & _).
    { intros o Hin. eapply settled_backup_ext; [|by apply Hsettled]. by rewrite Hs0'. }
    cbn [snd]. split; [congruence|].
    destruct Heff2 as (es & Hes & Hnd). exists es. by rewrite <- He0', <- He.
Qed.

Lemma second_cycle_after_clean_first_fetches_nothing_witness :
  let w1 := one_page [(report_txt, download_succeeds "hello" "5d41402abc4b2a76")] in
  let w2 := one_page [(report_txt, download_fails "ReadTimeoutError")] in
  let m1 := monitor_cycle "bucket" "docs/" "/mirror" false w1 0 60 fresh_state in
  let m2 := monitor_cycle "bucket" "docs/" "/mirror" false w2 m1.1.1 m1.1.2 m1.2 in
  let b1 := backup_cycle "bucket" "docs/" "/backup" false w1 0 0 10 fresh_state in
  let b2 := backup_cycle "bucket" "docs/" "/backup" false w2 b1.1.1.1 b1.1.1.2 b1.1.2 b1.2 in
  nothing_fetched m1.2 m2.2 ∧ nothing_fetched b1.2 b2.2.
Proof.
  intros w1 w2 m1 m2 b1 b2.
  destruct (second_cycle_after_clean_first_fetches_nothing "bucket" "docs/" "/mirror"
              false w1 w2 0 0 60 fresh_state) as [Hm _].
  { reflexivity. }
  { simpl. split_and!; try done. by repeat constructor. }
  { apply NoDup_singleton. }
  { done. }
  destruct (second_cycle_after_clean_first_fetches_nothing "bucket" "docs/" "/backup"
              false w1 w2 0 0 10 fresh_state) as [_ Hb].
  { reflexivity. }
  { simpl. split_and!; try done. by repeat constructor. }
  { apply NoDup_singleton. }
  { done. }
  split; [apply Hm; reflexivity|apply Hb; reflexivity].
Defined.

(** When the download of the first cycle fails, the second cycle over the
    same listing downloads the object and adds its entry. *)
Lemma second_cycle_downloads_after_failed_first :
  let w1 := one_page [(report_txt, download_fails "ReadTimeoutError")] in
  let w2 := one_page [(report_txt, download_succeeds "hello" "5d41402abc4b2a76")] in
  let m1 := monitor_cycle "bucket" "docs/" "/mirror" false w1 0 60 fresh_state in
  let m2 := monitor_cycle "bucket" "docs/" "/mirror" false w2 m1.1.1 m1.1.2 m1.2 in
  store m1.2 !! "docs/report.txt" = None
  ∧ store m2.2 !! "docs/report.txt"
    = Some (monitor_entry report_txt (Some "5d41402abc4b2a76") noon)
  ∧ drop (length (effects m1.2)) (effects m2.2)
    = [Download "bucket" "docs/report.txt" "/mirror/report.txt";
       SaveMetadata "/mirror/.backup_metadata.json" (store m2.2); Sleep 60].
Proof. vm_compute. done. Qed.

(** ** Paths *)














(** ** Versioning in the backup thread *)





